(** * NDC host simulator: the message framing and opcode-resolution protocol

    A shallow embedding of [server.js]: the frame decoder ([extractOpcode],
    [splitUint8ArrayBy0x1C]), the response resolver ([getResponseMessage]),
    the response encoder ([replaceSeperatorAndToUint8Array]), the frame
    encoder ([appendLength]) and the TCP data handler of [createServer].

    Bytes and UTF-16 code units are integers ([Z]); a [Uint8Array] is a list
    of bytes and a JavaScript string is the list of its UTF-16 code units.
    The platform classes the program calls ([TextDecoder], [TextEncoder],
    [String.prototype.replace] with a global literal pattern, property reads
    on a plain object) are written out after their standards. *)

From Stdlib Require Import ZArith List Bool Ascii String Lia.
From stdpp Require Import base option list countable gmap.
Import ListNotations.

Local Open Scope Z_scope.

(** ** JavaScript strings and values *)

Abbreviation js_string := (list Z).
Abbreviation Uint8Array := (list Z).

Definition is_byte (b : Z) : Prop := 0 <= b < 256.

(** A string literal of the source, as its code units (ASCII literals only). *)
Fixpoint js (s : string) : js_string :=
  match s with
  | EmptyString => []
  | String a s' => Z.of_N (N_of_ascii a) :: js s'
  end.

(** [a === b] on two strings: same code units. *)
Fixpoint string_eqb (a b : js_string) : bool :=
  match a, b with
  | [], [] => true
  | x :: a', y :: b' => (x =? y) && string_eqb a' b'
  | _, _ => false
  end.

(** The values a configuration file or a property read can give. A number
    is kept as an integer: the program only tests it for truthiness. Plain
    objects, arrays and functions are not inspected and share [js_object]. *)
Inductive js_value :=
| js_undefined
| js_null
| js_boolean (b : bool)
| js_number (n : Z)
| js_text (s : js_string)
| js_object
| js_bytes (a : Uint8Array).

Definition ToBoolean (v : js_value) : bool :=
  match v with
  | js_undefined | js_null => false
  | js_boolean b => b
  | js_number n => negb (n =? 0)
  | js_text s => negb (length s =? 0)%nat
  | js_object | js_bytes _ => true
  end.

(** A call either returns or throws. *)
Inductive completion (A : Type) :=
| Normal (a : A)
| Throw (message : string).
Arguments Normal {A} a.
Arguments Throw {A} message.

(** ** The separator constants of the source *)

Definition FS : js_string := [0x1c].
Definition GS : js_string := [0x1d].
Definition SO : js_string := [0x0e].
Definition SI : js_string := [0x0f].

(** ** UTF-8 and UTF-16 (WHATWG Encoding) *)

Module Utf8.

Record decoder := {
  code_point : Z;
  bytes_seen : Z;
  bytes_needed : Z;
  lower_boundary : Z;
  upper_boundary : Z
}.

Definition fresh : decoder :=
  {| code_point := 0; bytes_seen := 0; bytes_needed := 0;
     lower_boundary := 0x80; upper_boundary := 0xBF |}.

Definition between (lo b hi : Z) : bool := (lo <=? b) && (b <=? hi).

(** The handler on a byte when no sequence is open: the new state and the
    code points emitted (U+FFFD for an error). *)
Definition lead (b : Z) : decoder * list Z :=
  if between 0x00 b 0x7F then (fresh, [b])
  else if between 0xC2 b 0xDF then
    ({| code_point := Z.land b 0x1F; bytes_seen := 0; bytes_needed := 1;
        lower_boundary := 0x80; upper_boundary := 0xBF |}, [])
  else if between 0xE0 b 0xEF then
    ({| code_point := Z.land b 0xF; bytes_seen := 0; bytes_needed := 2;
        lower_boundary := if b =? 0xE0 then 0xA0 else 0x80;
        upper_boundary := if b =? 0xED then 0x9F else 0xBF |}, [])
  else if between 0xF0 b 0xF4 then
    ({| code_point := Z.land b 0x7; bytes_seen := 0; bytes_needed := 3;
        lower_boundary := if b =? 0xF0 then 0x90 else 0x80;
        upper_boundary := if b =? 0xF4 then 0x8F else 0xBF |}, [])
  else (fresh, [0xFFFD]).

(** One byte of input. A byte outside the boundaries of an open sequence
    is an error and is then read again with a fresh decoder. *)
Definition step (d : decoder) (b : Z) : decoder * list Z :=
  if bytes_needed d =? 0 then lead b
  else if negb (between (lower_boundary d) b (upper_boundary d)) then
    let (d', out) := lead b in (d', 0xFFFD :: out)
  else
    let cp := Z.lor (Z.shiftl (code_point d) 6) (Z.land b 0x3F) in
    if bytes_seen d + 1 =? bytes_needed d then (fresh, [cp])
    else ({| code_point := cp; bytes_seen := bytes_seen d + 1;
             bytes_needed := bytes_needed d;
             lower_boundary := 0x80; upper_boundary := 0xBF |}, []).

(** The whole input; at its end an open sequence is an error. *)
Fixpoint run (d : decoder) (bs : list Z) : list Z :=
  match bs with
  | [] => if bytes_needed d =? 0 then [] else [0xFFFD]
  | b :: bs' => let (d', out) := step d b in out ++ run d' bs'
  end.

Definition decode (bs : list Z) : list Z := run fresh bs.

(** The UTF-8 encoder on one scalar value. *)
Definition encode_scalar (cp : Z) : list Z :=
  if cp <=? 0x7F then [cp]
  else if cp <=? 0x7FF then
    [Z.shiftr cp 6 + 0xC0; Z.lor 0x80 (Z.land cp 0x3F)]
  else if cp <=? 0xFFFF then
    [Z.shiftr cp 12 + 0xE0;
     Z.lor 0x80 (Z.land (Z.shiftr cp 6) 0x3F);
     Z.lor 0x80 (Z.land cp 0x3F)]
  else
    [Z.shiftr cp 18 + 0xF0;
     Z.lor 0x80 (Z.land (Z.shiftr cp 12) 0x3F);
     Z.lor 0x80 (Z.land (Z.shiftr cp 6) 0x3F);
     Z.lor 0x80 (Z.land cp 0x3F)].

Definition encode (cps : list Z) : list Z := flat_map encode_scalar cps.

End Utf8.

Module Utf16.

Definition is_high (c : Z) : bool := (0xD800 <=? c) && (c <=? 0xDBFF).
Definition is_low (c : Z) : bool := (0xDC00 <=? c) && (c <=? 0xDFFF).

(** Code units of one scalar value. *)
Definition units (cp : Z) : js_string :=
  if cp <=? 0xFFFF then [cp]
  else [0xD800 + Z.shiftr (cp - 0x10000) 10;
        0xDC00 + Z.land (cp - 0x10000) 0x3FF].

Definition of_scalars (cps : list Z) : js_string := flat_map units cps.

(** Conversion of a string to scalar values (a USVString): a surrogate
    pair is one scalar value, a surrogate left alone becomes U+FFFD. *)
Fixpoint to_scalars (s : js_string) : list Z :=
  match s with
  | [] => []
  | c :: s' =>
    if is_high c then
      match s' with
      | d :: s'' =>
        if is_low d
        then (0x10000 + Z.shiftl (c - 0xD800) 10 + (d - 0xDC00)) :: to_scalars s''
        else 0xFFFD :: to_scalars s'
      | [] => [0xFFFD]
      end
    else if is_low c then 0xFFFD :: to_scalars s'
    else c :: to_scalars s'
  end.

End Utf16.

(** [new TextDecoder("utf-8", { fatal: false, ignoreBOM })] and its
    [decode]: errors are replaced, and one leading U+FEFF is dropped unless
    [ignoreBOM] is set. Each call starts afresh (no streaming). *)
Definition TextDecoder_decode (ignoreBOM : bool) (bytes : Uint8Array) : js_string :=
  let cps := Utf8.decode bytes in
  Utf16.of_scalars
    (if ignoreBOM then cps
     else match cps with
          | c :: rest => if c =? 0xFEFF then rest else cps
          | [] => cps
          end).

(** [new TextEncoder().encode(s)]. *)
Definition TextEncoder_encode (s : js_string) : Uint8Array :=
  Utf8.encode (Utf16.to_scalars s).

(** ** Frame decoder *)

(** [a.subarray(start, end)] and [a.subarray(start)] for indices in range. *)
Definition subarray (a : Uint8Array) (start stop : nat) : Uint8Array :=
  take (stop - start) (drop start a).
Definition subarray_from (a : Uint8Array) (start : nat) : Uint8Array :=
  drop start a.

(** The [for] loop of [splitUint8ArrayBy0x1C] and the push that follows it:
    [todo] is the input from index [i] on. *)
Fixpoint split_loop (input todo : Uint8Array) (i start : nat)
    (parts : list Uint8Array) : list Uint8Array :=
  match todo with
  | [] => parts ++ [subarray_from input start]
  | b :: todo' =>
    if b =? 0x1c
    then split_loop input todo' (S i) (S i) (parts ++ [subarray input start i])
    else split_loop input todo' (S i) start parts
  end.

Definition splitUint8ArrayBy0x1C (input : js_value) (includeEmpty : bool)
  : completion (list js_string) :=
  match input with
  | js_bytes input =>
    let parts := split_loop input input 0 0 [] in
    let strings := map (TextDecoder_decode false) parts in
    Normal (if includeEmpty then strings
            else List.filter (fun s => (0 <? length s)%nat) strings)
  | _ => Throw "input must be a Uint8Array"
  end.

Definition B0000 : js_string := js "B0000".
Definition GIS : js_string := js "GIS".

(** [extractOpcode]: [None] is the source's [null]. An exception is caught,
    logged, and leaves [opcode] at [null]. *)
Definition extractOpcode (message : Uint8Array) : option js_string :=
  let receivedMessage := message in
  if (length receivedMessage <=? 2)%nat then None
  else
    match splitUint8ArrayBy0x1C (js_bytes (subarray_from receivedMessage 2)) false with
    | Throw _ => None
    | Normal fields =>
      if (length fields =? 0)%nat then None
      else
        match fields !! 2%nat with
        | Some field => if string_eqb field B0000 then Some GIS else None
        | None => None
        end
    end.

(** ** Response resolver *)

(** The names [Object.prototype] answers for every plain object; each of
    them reads as a function or an object. *)
Definition Object_prototype_names : list js_string :=
  map js ["constructor"; "__defineGetter__"; "__defineSetter__";
          "hasOwnProperty"; "__lookupGetter__"; "__lookupSetter__";
          "isPrototypeOf"; "propertyIsEnumerable"; "toString"; "valueOf";
          "__proto__"; "toLocaleString"]%string.

Definition inherited (key : js_string) : bool :=
  existsb (string_eqb key) Object_prototype_names.

(** [o[key]] on an object made by [JSON.parse]: its own property, else the
    inherited one, else [undefined]. *)
Definition Get (o : gmap (list Z) js_value) (key : js_string) : js_value :=
  match o !! key with
  | Some v => v
  | None => if inherited key then js_object else js_undefined
  end.

(** [config.messageMapping || {}] *)
Definition messageMapping_of (configured : option (gmap (list Z) js_value))
  : gmap (list Z) js_value :=
  default ∅ configured.

Section Resolver.

Variable messageMapping : gmap (list Z) js_value.

Definition unknown_opcode (opcode : js_string) : js_string :=
  js "Unknown opcode: " ++ opcode.

Definition getResponseMessage (opcode : js_string) : js_value :=
  let mapped := Get messageMapping opcode in
  if ToBoolean mapped then mapped else js_text (unknown_opcode opcode).

End Resolver.

(** ** Response encoder *)

Fixpoint starts_with (pattern s : js_string) : bool :=
  match pattern, s with
  | [], _ => true
  | p :: pattern', c :: s' => (p =? c) && starts_with pattern' s'
  | _ :: _, [] => false
  end.

(** [s.replace(/pattern/g, replacement)] for a literal, non-empty pattern
    and a replacement without [$]: matches are taken from left to right and
    do not overlap. [skip] counts the code units of the current match that
    are still to be passed over. *)
Fixpoint replace_from (pattern replacement : js_string) (skip : nat)
    (s : js_string) : js_string :=
  match s with
  | [] => []
  | c :: s' =>
    match skip with
    | S k => replace_from pattern replacement k s'
    | O =>
      if starts_with pattern s
      then replacement ++ replace_from pattern replacement (length pattern - 1) s'
      else c :: replace_from pattern replacement 0 s'
    end
  end.

Definition replace_all (pattern replacement s : js_string) : js_string :=
  replace_from pattern replacement 0 s.

Definition substitute_tokens (input : js_string) : js_string :=
  let temp := replace_all (js "<FS>") FS input in
  let temp := replace_all (js "<SO>") SO temp in
  let temp := replace_all (js "<GS>") GS temp in
  let temp := replace_all (js "<SI>") SI temp in
  temp.

(** A value that is not a string has no [replace] method. *)
Definition replaceSeperatorAndToUint8Array (input : js_value)
  : completion Uint8Array :=
  match input with
  | js_text input => Normal (TextEncoder_encode (substitute_tokens input))
  | _ => Throw "input.replace is not a function"
  end.

(** ** Frame encoder *)

(** [ToUint32] and [ToInt32] of a number that is an integer. *)
Definition ToUint32 (n : Z) : Z := n mod 2 ^ 32.
Definition ToInt32 (n : Z) : Z :=
  let u := n mod 2 ^ 32 in if u <? 2 ^ 31 then u else u - 2 ^ 32.

(** The argument of [appendLength]: a [Uint8Array], or an [Int8Array] that
    [new Uint8Array(data)] copies element by element, modulo 256. *)
Inductive byte_source :=
| U8 (a : Uint8Array)
| I8 (a : list Z).

Definition appendLength (data : byte_source) : Uint8Array :=
  let bytes := match data with
               | U8 a => a
               | I8 a => map (fun x => x mod 256) a
               end in
  let len := Z.of_nat (length bytes) in
  Z.land (ToInt32 (Z.shiftr (ToUint32 len) 8)) 0xff
    :: Z.land (ToInt32 len) 0xff
    :: bytes.

(** ** The data handler of [createServer] *)

(** What the listener does with one [data] event. [uncaught]: a TypeError
    leaves the listener and nothing is written. *)
Inductive handled :=
| failed_to_extract_opcode
| no_response_message_configured (opcode : js_string)
| write_after (delay : Z) (frame : Uint8Array)
| uncaught.

(** Before the encoder is called the log line puts the response in a
    template literal. That conversion to a string never throws for a string
    or another primitive value; for an object it may throw, and an object
    that converts has no [replace] that can be called: a response that is
    no string ends in a TypeError, of the one line or of the other. *)
Definition on_data (messageMapping : gmap (list Z) js_value) (data : Uint8Array)
  : handled :=
  match extractOpcode data with
  | None => failed_to_extract_opcode
  | Some opcode =>
    let responseMessage := getResponseMessage messageMapping opcode in
    if negb (ToBoolean responseMessage) then no_response_message_configured opcode
    else
      match replaceSeperatorAndToUint8Array responseMessage with
      | Throw _ => uncaught
      | Normal res => write_after 2000 (appendLength (U8 res))
      end
  end.

(** ** The split, as the specification words it

    "Splits the remaining bytes on every occurrence of byte 0x1C; this
    produces one segment per separator occurrence plus a trailing segment."
    [segments] follows these words; [split_loop_segments] below shows that
    the loop of the source computes it. *)
Fixpoint segments (bs : Uint8Array) : list Uint8Array :=
  match bs with
  | [] => [[]]
  | b :: bs' =>
    if b =? 0x1c then [] :: segments bs'
    else match segments bs' with
         | s :: ss => (b :: s) :: ss
         | [] => [[b]]
         end
  end.

(** The segments put together again, one separator between neighbours. *)
Fixpoint join (ss : list Uint8Array) : Uint8Array :=
  match ss with
  | [] => []
  | [s] => s
  | s :: ss' => s ++ 0x1c :: join ss'
  end.

Definition nonempty (s : list Z) : bool := (0 <? length s)%nat.

(** The text fields of a message: the segments after the 2 header bytes,
    decoded, the empty ones left out. *)
Definition fields_of (message : Uint8Array) : list js_string :=
  List.filter nonempty (map (TextDecoder_decode false) (segments (drop 2 message))).

(** A segment under construction put in front of the segments to come. *)
Definition attach (pre : Uint8Array) (ss : list Uint8Array) : list Uint8Array :=
  match ss with
  | s :: ss' => (pre ++ s) :: ss'
  | [] => [pre]
  end.

(** ** The round trip of the specification *)

Definition token_of (c : Z) : js_string :=
  if c =? 0x1c then js "<FS>"
  else if c =? 0x0e then js "<SO>"
  else if c =? 0x1d then js "<GS>"
  else if c =? 0x0f then js "<SI>"
  else [c].

(** Modelled from the spec: the token-reverse of the round-trip property,
    which the repository does not have. It decodes the bytes as UTF-8 and
    substitutes the four control characters back to their symbolic tokens.
    [ignoreBOM] is the option of the decoder: when not set, the decoder
    drops a leading U+FEFF, as the one of [splitUint8ArrayBy0x1C] does. *)
Definition token_reverse (ignoreBOM : bool) (bytes : Uint8Array) : js_string :=
  flat_map token_of (TextDecoder_decode ignoreBOM bytes).

(** [pattern] occurs somewhere in [s]. *)
Fixpoint occurs (pattern s : js_string) : bool :=
  match s with
  | [] => starts_with pattern []
  | _ :: s' => starts_with pattern s || occurs pattern s'
  end.

(** No literal token spelling. *)
Definition token_free (s : js_string) : bool :=
  negb (occurs (js "<FS>") s || occurs (js "<SO>") s
        || occurs (js "<GS>") s || occurs (js "<SI>") s).

Definition is_control (c : Z) : bool :=
  (c =? 0x1c) || (c =? 0x1d) || (c =? 0x0e) || (c =? 0x0f).

(** No raw control character of the four reserved ones. *)
Definition control_free (s : js_string) : bool :=
  forallb (fun c => negb (is_control c)) s.

(** Well-formed text: code units in range, every surrogate in a pair. *)
Fixpoint well_formed (s : js_string) : bool :=
  match s with
  | [] => true
  | c :: s' =>
    if Utf16.is_high c then
      match s' with
      | d :: s'' => Utf16.is_low d && well_formed s''
      | [] => false
      end
    else negb (Utf16.is_low c) && (0 <=? c) && (c <=? 0xFFFF) && well_formed s'
  end.

(** A Unicode scalar value: a code point that is no surrogate. *)
Definition is_scalar (cp : Z) : Prop :=
  0 <= cp <= 0x10FFFF /\ ~ (0xD800 <= cp <= 0xDFFF).

(** ** The data handler of [createTLSServer] *)

(** [null] as a property key and in a template literal reads "null". *)
Definition opcode_text (opcode : option js_string) : js_string :=
  match opcode with
  | Some text => text
  | None => js "null"
  end.

(** The TLS handler has no guard on the opcode nor on the response; its log
    line converts the response to a string as the one of [on_data] does. *)
Definition on_data_tls (messageMapping : gmap (list Z) js_value)
    (data : Uint8Array) : handled :=
  let opcode := extractOpcode data in
  let responseMessage := getResponseMessage messageMapping (opcode_text opcode) in
  match replaceSeperatorAndToUint8Array responseMessage with
  | Throw _ => uncaught
  | Normal res => write_after 2000 (appendLength (U8 res))
  end.

(** ** Texts and buffers of the properties below *)

Definition is_code_unit (c : Z) : Prop := 0 <= c <= 0xFFFF.

(** Every element is an ASCII character. *)
Definition ascii_only (s : list Z) : bool :=
  forallb (fun c => (0 <=? c) && (c <=? 0x7F)) s.

(** The number of separator bytes. *)
Definition separators (bs : Uint8Array) : nat :=
  length (List.filter (fun b => b =? 0x1c) bs).

(** A field on the wire: ASCII, not empty, no separator inside. *)
Definition ascii_field (f : Uint8Array) : bool :=
  ascii_only f && nonempty f && forallb (fun b => negb (b =? 0x1c)) f.

(** ** Segments as the decoder sees them *)

(** The UTF-8 byte order mark. *)
Definition byte_order_mark : Uint8Array := [0xEF; 0xBB; 0xBF].

(** A segment that is neither empty nor a byte order mark alone. *)
Definition kept (segment : Uint8Array) : bool :=
  negb (string_eqb segment [] || string_eqb segment byte_order_mark).

(** The bytes of "B0000", with or without a byte order mark in front. *)
Definition spells_B0000 (segment : Uint8Array) : bool :=
  string_eqb segment (js "B0000")
  || string_eqb segment (byte_order_mark ++ js "B0000").

(** The four tokens of the encoder and the control character of each. *)
Definition token_table : list (js_string * Z) :=
  [(js "<FS>", 0x1c); (js "<SO>", 0x0e); (js "<GS>", 0x1d); (js "<SI>", 0x0f)].

(** ** Sample configurations *)

Definition hello_mapping : gmap (list Z) js_value :=
  {[ GIS := js_text (js "Hello") ]}.

Definition empty_text_mapping : gmap (list Z) js_value :=
  {[ GIS := js_text [] ]}.

Definition number_mapping : gmap (list Z) js_value :=
  {[ GIS := js_number 42 ]}.

Definition scenario_payload : Uint8Array :=
  js "xx" ++ [0x1c] ++ js "yy" ++ [0x1c] ++ js "B0000".

(** * Properties *)

(** ** Strings *)

Lemma string_eqb_eq (a b : js_string) : string_eqb a b = true <-> a = b.
Proof.
  revert b; induction a as [|x a IH]; intros [|y b]; simpl; split;
    try congruence; try discriminate.
  - rewrite andb_true_iff, Z.eqb_eq, IH. intros [-> ->]; reflexivity.
  - intros [= -> ->]. rewrite Z.eqb_refl. simpl. apply IH. reflexivity.
Qed.

Lemma string_eqb_refl (a : js_string) : string_eqb a a = true.
Proof. apply string_eqb_eq. reflexivity. Qed.

(** ** The split loop computes the segments *)

Lemma segments_cons (bs : Uint8Array) : exists s ss, segments bs = s :: ss.
Proof.
  destruct bs as [|b bs]; simpl; [eauto|].
  destruct (b =? 0x1c); [eauto|]. destruct (segments bs); eauto.
Qed.

Lemma subarray_empty (a : Uint8Array) (i : nat) : subarray a i i = [].
Proof. unfold subarray. rewrite Nat.sub_diag. apply take_0. Qed.

Lemma split_loop_attach (todo input : Uint8Array) (i start : nat)
    (parts : list Uint8Array) :
  drop i input = todo -> (start <= i)%nat ->
  split_loop input todo i start parts
  = parts ++ attach (subarray input start i) (segments todo).
Proof.
  revert i start parts. induction todo as [|b todo IH]; intros i start parts Hd Hs.
  - simpl. unfold subarray, subarray_from. rewrite app_nil_r.
    rewrite take_ge; [reflexivity|].
    apply drop_nil_inv in Hd. rewrite length_drop. lia.
  - assert (Hi : input !! i = Some b).
    { rewrite <- (Nat.add_0_r i), <- lookup_drop, Hd. reflexivity. }
    assert (Hd' : drop (S i) input = todo).
    { replace (S i) with (i + 1)%nat by lia.
      rewrite <- drop_drop, Hd. reflexivity. }
    simpl. destruct (b =? 0x1c) eqn:Hb.
    + rewrite IH by (auto; lia). rewrite subarray_empty, <- app_assoc. simpl.
      destruct (segments_cons todo) as (s & ss & ->). simpl.
      rewrite app_nil_r. reflexivity.
    + rewrite IH by (auto; lia).
      destruct (segments_cons todo) as (s & ss & ->). simpl.
      f_equal. f_equal. unfold subarray.
      replace (S i - start)%nat with (S (i - start)) by lia.
      rewrite (take_S_r _ _ b).
      * rewrite <- app_assoc. reflexivity.
      * rewrite lookup_drop. replace (start + (i - start))%nat with i by lia.
        exact Hi.
Qed.

Lemma split_loop_segments (input : Uint8Array) :
  split_loop input input 0 0 [] = segments input.
Proof.
  rewrite split_loop_attach by (auto using drop_0).
  rewrite subarray_empty. destruct (segments_cons input) as (s & ss & ->).
  reflexivity.
Qed.

(** The segments are a split of the input: joined with the separator they
    give it back, and no separator is left inside one. *)
Lemma join_segments (bs : Uint8Array) : join (segments bs) = bs.
Proof.
  induction bs as [|b bs IH]; [reflexivity|]. simpl.
  destruct (Z.eqb_spec b 0x1c) as [->|Hb].
  - destruct (segments_cons bs) as (s & ss & E). rewrite E in *.
    simpl in *. rewrite IH. reflexivity.
  - destruct (segments_cons bs) as (s & ss & E). rewrite E in *.
    destruct ss; simpl in *; rewrite IH; reflexivity.
Qed.

Lemma segments_no_separator (bs : Uint8Array) :
  Forall (fun s => ~ In 0x1c s) (segments bs).
Proof.
  induction bs as [|b bs IH]; simpl.
  - constructor; [intros []|constructor].
  - destruct (Z.eqb_spec b 0x1c) as [->|Hb].
    + constructor; [intros []|exact IH].
    + destruct (segments bs) as [|s ss]; inversion IH; subst;
        constructor; trivial; intros [H|H]; congruence || auto.
Qed.

Lemma length_segments (bs : Uint8Array) :
  length (segments bs) = S (length (List.filter (fun b => b =? 0x1c) bs)).
Proof.
  induction bs as [|b bs IH]; [reflexivity|].
  cbn [segments List.filter]. destruct (b =? 0x1c); cbn [length]; [lia|].
  destruct (segments bs); cbn [length] in *; lia.
Qed.

(** ** Frame decoder *)

Lemma splitUint8ArrayBy0x1C_fields (message : Uint8Array) :
  splitUint8ArrayBy0x1C (js_bytes (subarray_from message 2)) false
  = Normal (fields_of message).
Proof.
  unfold splitUint8ArrayBy0x1C, fields_of, subarray_from.
  rewrite split_loop_segments. reflexivity.
Qed.

Lemma fields_of_short (message : Uint8Array) :
  (length message <= 2)%nat -> fields_of message = [].
Proof.
  intros H. unfold fields_of. rewrite drop_ge by exact H. reflexivity.
Qed.

(** [extractOpcode] in one equation: the guards on the lengths of the
    message and of the field list change nothing, since a missing field at
    index 2 already gives [null]. *)
Lemma extractOpcode_fields (message : Uint8Array) :
  extractOpcode message
  = match fields_of message !! 2%nat with
    | Some field => if string_eqb field B0000 then Some GIS else None
    | None => None
    end.
Proof.
  unfold extractOpcode. destruct (Nat.leb_spec (length message) 2) as [H|H].
  - rewrite fields_of_short by exact H. reflexivity.
  - rewrite splitUint8ArrayBy0x1C_fields.
    destruct (fields_of message) as [|f fs]; reflexivity.
Qed.

(** Decoding keeps an empty segment empty, so dropping the empty texts
    leaves at most as many fields as there are non-empty segments. *)
Lemma length_fields_le (parts : list Uint8Array) :
  (length (List.filter nonempty (map (TextDecoder_decode false) parts))
   <= length (List.filter nonempty parts))%nat.
Proof.
  induction parts as [|p parts IH]; [reflexivity|]. simpl.
  destruct p as [|b p]; [exact IH|].
  change (nonempty (b :: p)) with true. cbv iota.
  destruct (nonempty _); simpl; lia.
Qed.

(** The rule on the decoded fields: "GIS" exactly when the field at index 2
    is the text "B0000", and [null] for any other value or no value at that
    position. *)
Lemma extractOpcode_rule (message : Uint8Array) :
  extractOpcode message
  = if decide (fields_of message !! 2%nat = Some B0000) then Some GIS else None.
Proof.
  rewrite extractOpcode_fields.
  destruct (fields_of message !! 2%nat) as [field|] eqn:E.
  - destruct (string_eqb field B0000) eqn:Eq.
    + apply string_eqb_eq in Eq. subst. rewrite decide_True; reflexivity.
    + rewrite decide_False; [reflexivity|]. intros [= ->].
      rewrite string_eqb_refl in Eq. discriminate.
  - rewrite decide_False; [reflexivity|discriminate].
Qed.

(** Fewer than 3 fields: no field at index 2. *)
Lemma extractOpcode_few_fields (message : Uint8Array) :
  (length (fields_of message) < 3)%nat -> extractOpcode message = None.
Proof.
  intros H. rewrite extractOpcode_fields.
  rewrite (lookup_ge_None_2 (fields_of message) 2); [reflexivity|lia].
Qed.

(** C8: a buffer whose split at 0x1C, after the first 2 bytes, has fewer
    than 3 non-empty segments gives [null]. *)
Theorem extractOpcode_few_segments (message : Uint8Array) :
  (length (List.filter nonempty (segments (drop 2 message))) < 3)%nat ->
  extractOpcode message = None.
Proof.
  intros H. apply extractOpcode_few_fields. unfold fields_of.
  pose proof (length_fields_le (segments (drop 2 message))). lia.
Qed.

Lemma extractOpcode_few_segments_witness :
  let message := [0; 9] ++ js "xx" ++ FS ++ FS ++ js "B0000" in
  (length (List.filter nonempty (segments (drop 2 message))) < 3)%nat
  /\ extractOpcode message = None.
Proof.
  intros message. split; [vm_compute; lia|].
  apply (extractOpcode_few_segments message). vm_compute. lia.
Defined.

(** A segment that is only a byte order mark decodes to the empty text
    and is left out of the fields, so "B0000" comes at index 1 here. *)
Example extractOpcode_byte_order_mark :
  let message := [0; 9] ++ js "xx" ++ FS ++ [0xEF; 0xBB; 0xBF] ++ FS ++ js "B0000" in
  fields_of message = [js "xx"; js "B0000"] /\ extractOpcode message = None.
Proof. vm_compute. split; reflexivity. Qed.

(** C9: a buffer of length at most 2 gives [null]. *)
Theorem extractOpcode_short (message : Uint8Array) :
  (length message <= 2)%nat -> extractOpcode message = None.
Proof.
  intros H. unfold extractOpcode.
  destruct (Nat.leb_spec (length message) 2); [reflexivity|lia].
Qed.

Lemma extractOpcode_short_witness :
  (length [0x00; 0x1c] <= 2)%nat /\ extractOpcode [0x00; 0x1c] = None.
Proof.
  split; [simpl; lia|]. apply (extractOpcode_short [0x00; 0x1c]). simpl. lia.
Defined.

(** C2: the end-to-end scenario. With the mapping {"GIS": "Hello"} and an
    inbound buffer of any 2 header bytes followed by "xx" 0x1C "yy" 0x1C
    "B0000": the decoder gives "GIS", the resolver "Hello", the encoder the
    UTF-8 bytes of "Hello", and the frame encoder 00 05 'H' 'e' 'l' 'l' 'o';
    the handler schedules that frame. *)
Theorem scenario_hello (h0 h1 : Z) :
  let data := h0 :: h1 :: scenario_payload in
  extractOpcode data = Some (js "GIS")
  /\ getResponseMessage hello_mapping (js "GIS") = js_text (js "Hello")
  /\ replaceSeperatorAndToUint8Array (js_text (js "Hello"))
     = Normal [0x48; 0x65; 0x6c; 0x6c; 0x6f]
  /\ appendLength (U8 [0x48; 0x65; 0x6c; 0x6c; 0x6f])
     = [0x00; 0x05; 0x48; 0x65; 0x6c; 0x6c; 0x6f]
  /\ on_data hello_mapping data
     = write_after 2000 [0x00; 0x05; 0x48; 0x65; 0x6c; 0x6c; 0x6f].
Proof.
  assert (E : extractOpcode (h0 :: h1 :: scenario_payload) = Some (js "GIS"))
    by reflexivity.
  cbv zeta. unfold on_data. rewrite E.
  repeat split; vm_compute; reflexivity.
Qed.

(** ** Response resolver *)

Lemma getResponseMessage_own (m : gmap (list Z) js_value) (opcode : js_string)
    (v : js_value) :
  m !! opcode = Some v ->
  getResponseMessage m opcode
  = if ToBoolean v then v else js_text (unknown_opcode opcode).
Proof. intros H. unfold getResponseMessage, Get. rewrite H. reflexivity. Qed.

Lemma getResponseMessage_truthy (m : gmap (list Z) js_value) (opcode : js_string) :
  ToBoolean (getResponseMessage m opcode) = true.
Proof.
  unfold getResponseMessage.
  destruct (ToBoolean (Get m opcode)) eqn:E; [exact E|reflexivity].
Qed.

(** Without [messageMapping] in the configuration every opcode the decoder
    derives is unknown. *)
Example getResponseMessage_no_mapping :
  getResponseMessage (messageMapping_of None) GIS
  = js_text (js "Unknown opcode: GIS").
Proof. vm_compute. reflexivity. Qed.

(** C4, as the code has it: a key mapped to a non-empty text gives exactly
    that text; a key mapped to the empty text, and an absent key that is
    not a name inherited from [Object.prototype], give "Unknown opcode: "
    followed by the opcode; the result is never [null] or [undefined]. *)
Theorem getResponseMessage_resolve (m : gmap (list Z) js_value)
    (opcode : js_string) :
  (forall text, m !! opcode = Some (js_text text) -> text <> [] ->
     getResponseMessage m opcode = js_text text)
  /\ (m !! opcode = Some (js_text []) ->
     getResponseMessage m opcode = js_text (js "Unknown opcode: " ++ opcode))
  /\ (m !! opcode = None -> inherited opcode = false ->
     getResponseMessage m opcode = js_text (js "Unknown opcode: " ++ opcode))
  /\ getResponseMessage m opcode <> js_null
  /\ getResponseMessage m opcode <> js_undefined.
Proof.
  split; [|split; [|split; [|split]]].
  - intros text H Hne. rewrite (getResponseMessage_own _ _ _ H).
    destruct text; [congruence|reflexivity].
  - intros H. rewrite (getResponseMessage_own _ _ _ H). reflexivity.
  - intros H Hi. unfold getResponseMessage, Get. rewrite H, Hi. reflexivity.
  - intros E. pose proof (getResponseMessage_truthy m opcode) as T.
    rewrite E in T. discriminate.
  - intros E. pose proof (getResponseMessage_truthy m opcode) as T.
    rewrite E in T. discriminate.
Qed.

Lemma getResponseMessage_resolve_witness :
  getResponseMessage hello_mapping GIS = js_text (js "Hello")
  /\ getResponseMessage empty_text_mapping GIS = js_text (js "Unknown opcode: GIS")
  /\ getResponseMessage ∅ GIS = js_text (js "Unknown opcode: GIS").
Proof.
  split; [|split].
  - apply (proj1 (getResponseMessage_resolve hello_mapping GIS) (js "Hello")).
    + vm_compute. reflexivity.
    + discriminate.
  - apply (proj1 (proj2 (getResponseMessage_resolve empty_text_mapping GIS))).
    vm_compute. reflexivity.
  - apply (proj1 (proj2 (proj2 (getResponseMessage_resolve ∅ GIS)))).
    + vm_compute. reflexivity.
    + vm_compute. reflexivity.
Defined.

(** C4 as stated fails: the mapping {"GIS": ""} has the key "GIS", and the
    resolver does not return the mapped text "". *)
Lemma getResponseMessage_empty_text :
  empty_text_mapping !! GIS = Some (js_text [])
  /\ getResponseMessage empty_text_mapping GIS = js_text (js "Unknown opcode: GIS")
  /\ getResponseMessage empty_text_mapping GIS <> js_text [].
Proof. vm_compute. repeat split; discriminate. Qed.

(** C10, as the code has it: the resolver's result is always truthy; a
    falsy mapped value gives the fallback, which is never empty; the result
    is a non-empty string whenever the mapping holds texts only and the
    opcode is not a name inherited from [Object.prototype]; and the data
    handler never takes its "No response message configured" branch. *)
Theorem getResponseMessage_never_falsy (m : gmap (list Z) js_value)
    (opcode : js_string) :
  ToBoolean (getResponseMessage m opcode) = true
  /\ (forall v, m !! opcode = Some v -> ToBoolean v = false ->
     getResponseMessage m opcode = js_text (js "Unknown opcode: " ++ opcode))
  /\ js "Unknown opcode: " ++ opcode <> []
  /\ ((forall v, m !! opcode = Some v -> exists text, v = js_text text) ->
      inherited opcode = false ->
      exists text, getResponseMessage m opcode = js_text text /\ text <> [])
  /\ (forall data, on_data m data <> no_response_message_configured opcode).
Proof.
  split; [|split; [|split; [|split]]].
  - apply getResponseMessage_truthy.
  - intros v H F. rewrite (getResponseMessage_own _ _ _ H), F. reflexivity.
  - discriminate.
  - intros Htext Hi. destruct (m !! opcode) as [v|] eqn:E.
    + destruct (Htext v eq_refl) as [text ->].
      rewrite (getResponseMessage_own _ _ _ E).
      destruct text as [|c text]; simpl; eexists; split; eauto; discriminate.
    + unfold getResponseMessage, Get. rewrite E, Hi. simpl.
      eexists; split; eauto; discriminate.
  - intros data. unfold on_data. destruct (extractOpcode data) as [op|]; [|discriminate].
    rewrite getResponseMessage_truthy. simpl.
    destruct (replaceSeperatorAndToUint8Array _); discriminate.
Qed.

Lemma getResponseMessage_never_falsy_witness :
  getResponseMessage empty_text_mapping GIS = js_text (js "Unknown opcode: GIS")
  /\ exists text, getResponseMessage hello_mapping GIS = js_text text /\ text <> [].
Proof.
  split.
  - apply (proj1 (proj2 (getResponseMessage_never_falsy empty_text_mapping GIS))
             (js_text [])); vm_compute; reflexivity.
  - apply (proj1 (proj2 (proj2 (proj2
             (getResponseMessage_never_falsy hello_mapping GIS))))).
    + intros v. change (hello_mapping !! GIS) with (Some (js_text (js "Hello"))).
      intros [= <-]. eexists; reflexivity.
    + vm_compute. reflexivity.
Defined.

(** C10 as stated fails: the result need not be a string. For the opcode
    "toString" and the empty mapping it is the inherited function, and for
    the mapping {"GIS": 42} it is the number. *)
Lemma getResponseMessage_not_a_string :
  getResponseMessage ∅ (js "toString") = js_object
  /\ getResponseMessage number_mapping GIS = js_number 42
  /\ ~ (forall (m : gmap (list Z) js_value) (opcode : js_string),
         exists text, getResponseMessage m opcode = js_text text /\ text <> []).
Proof.
  split; [vm_compute; reflexivity|]. split; [vm_compute; reflexivity|].
  intros H. destruct (H number_mapping GIS) as (text & E & _).
  vm_compute in E. discriminate.
Qed.

(** ** Frame encoder *)

Lemma land_0xff (n : Z) : Z.land n 0xff = n mod 256.
Proof. change 0xff with (Z.ones 8). rewrite Z.land_ones by lia. reflexivity. Qed.

Lemma shiftr_8 (n : Z) : Z.shiftr n 8 = n / 256.
Proof. rewrite Z.shiftr_div_pow2 by lia. reflexivity. Qed.

Lemma ToInt32_mod_256 (n : Z) : ToInt32 n mod 256 = n mod 256.
Proof.
  unfold ToInt32. change (2 ^ 32) with (16777216 * 256). change (2 ^ 31) with 2147483648.
  destruct (_ <? _); Z.div_mod_to_equations; lia.
Qed.

(** The two length bytes, for any length. *)
Lemma appendLength_bytes (data : Uint8Array) :
  appendLength (U8 data)
  = (Z.of_nat (length data) mod 2 ^ 32 / 256) mod 256
      :: Z.of_nat (length data) mod 256
      :: data.
Proof.
  unfold appendLength, ToUint32.
  rewrite !land_0xff, shiftr_8, !ToInt32_mod_256. reflexivity.
Qed.

(** C6: for a payload of at most 65535 bytes the frame is 2 bytes, the
    big-endian encoding of the payload length, followed by the payload
    unchanged. *)
Theorem appendLength_frame (data : Uint8Array) :
  Z.of_nat (length data) <= 65535 ->
  exists hi lo,
    appendLength (U8 data) = hi :: lo :: data
    /\ is_byte hi /\ is_byte lo
    /\ 256 * hi + lo = Z.of_nat (length data).
Proof.
  intros H. rewrite appendLength_bytes.
  eexists _, _. split; [reflexivity|]. unfold is_byte.
  change (2 ^ 32) with 4294967296. Z.div_mod_to_equations. lia.
Qed.

Lemma appendLength_frame_witness :
  appendLength (U8 []) = [0; 0]
  /\ appendLength (U8 (replicate (Z.to_nat 65535) 0xAA)) = 0xFF :: 0xFF :: replicate (Z.to_nat 65535) 0xAA.
Proof.
  split.
  - destruct (appendLength_frame []) as (hi & lo & E & Hhi & Hlo & Hlen).
    + simpl. lia.
    + rewrite E. unfold is_byte in *. simpl in Hlen.
      replace hi with 0 by lia. replace lo with 0 by lia. reflexivity.
  - destruct (appendLength_frame (replicate (Z.to_nat 65535) 0xAA)) as (hi & lo & E & Hhi & Hlo & Hlen).
    + rewrite length_replicate, Z2Nat.id; lia.
    + rewrite E. unfold is_byte in *. rewrite length_replicate, Z2Nat.id in Hlen by lia.
      replace hi with 0xFF by lia. replace lo with 0xFF by lia. reflexivity.
Defined.

(** C3: what the code does at length 65536. [appendLength] has no failure
    path: the length field wraps to 00 00 and the frame is returned. *)
Theorem appendLength_wraps (data : Uint8Array) :
  Z.of_nat (length data) = 65536 ->
  appendLength (U8 data) = 0x00 :: 0x00 :: data.
Proof.
  intros H. rewrite appendLength_bytes, H. reflexivity.
Qed.

Lemma appendLength_wraps_witness :
  appendLength (U8 (replicate (Z.to_nat 65536) 0x41)) = 0x00 :: 0x00 :: replicate (Z.to_nat 65536) 0x41.
Proof.
  apply (appendLength_wraps (replicate (Z.to_nat 65536) 0x41)).
  rewrite length_replicate. apply Z2Nat.id. lia.
Defined.

(** ** Response encoder: the substitution *)

Section Replace.

Variables pattern replacement : js_string.

Lemma starts_with_length (s : js_string) :
  starts_with pattern s = true -> (length pattern <= length s)%nat.
Proof.
  revert s. induction pattern as [|p pat IH]; intros s H; simpl; [lia|].
  destruct s as [|c s]; [discriminate|]. simpl in *.
  apply andb_true_iff in H as [_ H]. apply IH in H. lia.
Qed.

Lemma starts_with_self (b : js_string) : starts_with pattern (pattern ++ b) = true.
Proof.
  induction pattern as [|p pat IH]; simpl; [reflexivity|].
  rewrite Z.eqb_refl. exact IH.
Qed.

(** A code unit that is not in the pattern ends every match before it. *)
Lemma starts_with_app_sep (c : Z) (a b : js_string) :
  ~ In c pattern ->
  starts_with pattern (a ++ c :: b) = starts_with pattern a.
Proof.
  revert a. induction pattern as [|p pat IH]; intros a Hc; [reflexivity|].
  destruct a as [|x a]; simpl.
  - destruct (Z.eqb_spec p c) as [->|_]; [|reflexivity].
    exfalso. apply Hc. left. reflexivity.
  - rewrite IH; [reflexivity|]. intros H. apply Hc. right. exact H.
Qed.

Lemma replace_from_skip (l b : js_string) :
  replace_from pattern replacement (length l) (l ++ b)
  = replace_from pattern replacement 0 b.
Proof. induction l as [|x l IH]; simpl; [reflexivity|exact IH]. Qed.

Lemma replace_from_sep (c : Z) (a b : js_string) (k : nat) :
  ~ In c pattern -> pattern <> [] -> (k <= length a)%nat ->
  replace_from pattern replacement k (a ++ c :: b)
  = replace_from pattern replacement k a
    ++ c :: replace_from pattern replacement 0 b.
Proof.
  intros Hc Hne. revert k. induction a as [|x a IH]; intros k Hk.
  - simpl in Hk. replace k with O by lia. cbn [app replace_from].
    pose proof (starts_with_app_sep c [] b Hc) as E. cbn [app] in E.
    rewrite E. destruct pattern; [congruence|reflexivity].
  - destruct k as [|k]; cbn [app replace_from].
    + change (x :: a ++ c :: b) with ((x :: a) ++ c :: b).
      rewrite (starts_with_app_sep c (x :: a) b Hc).
      destruct (starts_with pattern (x :: a)) eqn:E.
      * apply starts_with_length in E. simpl in E.
        rewrite IH by lia. rewrite app_assoc. reflexivity.
      * rewrite IH by lia. reflexivity.
    + apply IH. simpl in Hk. lia.
Qed.

End Replace.

(** A pattern whose first code unit does not come again in it: an
    occurrence of it written after [a] is matched there, whatever [a] is. *)
Lemma replace_from_token (p : Z) (rest replacement a b : js_string) (k : nat) :
  ~ In p rest -> (k <= length a)%nat ->
  replace_from (p :: rest) replacement k (a ++ (p :: rest) ++ b)
  = replace_from (p :: rest) replacement k a
    ++ replacement ++ replace_from (p :: rest) replacement 0 b.
Proof.
  intros Hp. revert k. induction a as [|x a IH]; intros k Hk.
  - simpl in Hk. replace k with O by lia.
    change ([] ++ (p :: rest) ++ b) with (p :: (rest ++ b)).
    cbn [replace_from app].
    change (p :: rest ++ b) with ((p :: rest) ++ b).
    rewrite starts_with_self.
    replace (length (p :: rest) - 1)%nat with (length rest) by (simpl; lia).
    rewrite replace_from_skip. reflexivity.
  - change ((x :: a) ++ (p :: rest) ++ b) with (x :: (a ++ (p :: rest) ++ b)).
    destruct k as [|k]; cbn [replace_from].
    + assert (E : starts_with (p :: rest) (x :: a ++ (p :: rest) ++ b)
                  = starts_with (p :: rest) (x :: a)).
      { cbn [starts_with]. f_equal.
        change ((p :: rest) ++ b) with (p :: (rest ++ b)).
        apply starts_with_app_sep. exact Hp. }
      rewrite E. destruct (starts_with (p :: rest) (x :: a)) eqn:E'.
      * apply starts_with_length in E'. cbn [length] in *.
        rewrite IH by lia. rewrite app_assoc. reflexivity.
      * rewrite IH by lia. reflexivity.
    + apply IH. simpl in Hk. lia.
Qed.

Lemma replace_all_sep (pattern replacement : js_string) (c : Z) (a b : js_string) :
  ~ In c pattern -> pattern <> [] ->
  replace_all pattern replacement (a ++ c :: b)
  = replace_all pattern replacement a ++ c :: replace_all pattern replacement b.
Proof. intros. apply replace_from_sep; auto. simpl. lia. Qed.

Lemma replace_all_token (p : Z) (rest replacement a b : js_string) :
  ~ In p rest ->
  replace_all (p :: rest) replacement (a ++ (p :: rest) ++ b)
  = replace_all (p :: rest) replacement a
    ++ replacement ++ replace_all (p :: rest) replacement b.
Proof. intros. apply replace_from_token; auto. simpl. lia. Qed.

(** Where the pattern does not occur, nothing is replaced. *)
Lemma replace_all_absent (pattern replacement s : js_string) :
  occurs pattern s = false -> replace_all pattern replacement s = s.
Proof.
  unfold replace_all. induction s as [|c s IH]; intros H; [reflexivity|].
  cbn [occurs] in H. apply orb_false_iff in H as [H1 H2].
  cbn [replace_from]. rewrite H1, IH by exact H2. reflexivity.
Qed.

Ltac not_in := cbv; intuition discriminate.

Lemma substitute_tokens_FS_GS (pre post : js_string) :
  substitute_tokens (pre ++ js "<FS><GS>" ++ post)
  = substitute_tokens pre ++ [0x1c; 0x1d] ++ substitute_tokens post.
Proof.
  unfold substitute_tokens.
  change (js "<FS><GS>" ++ post) with (js "<FS>" ++ js "<GS>" ++ post).
  change (js "<FS>") with (60 :: js "FS>").
  rewrite replace_all_token by not_in.
  change (replace_all (60 :: js "FS>") FS (js "<GS>" ++ post))
    with (js "<GS>" ++ replace_all (60 :: js "FS>") FS post).
  set (a1 := replace_all (60 :: js "FS>") FS pre).
  set (b1 := replace_all (60 :: js "FS>") FS post).
  change (a1 ++ FS ++ js "<GS>" ++ b1) with (a1 ++ 0x1c :: js "<GS>" ++ b1).
  rewrite replace_all_sep by (not_in || discriminate).
  change (replace_all (js "<SO>") SO (js "<GS>" ++ b1))
    with (js "<GS>" ++ replace_all (js "<SO>") SO b1).
  set (a2 := replace_all (js "<SO>") SO a1).
  set (b2 := replace_all (js "<SO>") SO b1).
  rewrite replace_all_sep by (not_in || discriminate).
  change (replace_all (js "<GS>") GS (js "<GS>" ++ b2))
    with (0x1d :: replace_all (js "<GS>") GS b2).
  set (a3 := replace_all (js "<GS>") GS a2).
  set (b3 := replace_all (js "<GS>") GS b2).
  rewrite replace_all_sep by (not_in || discriminate).
  change (replace_all (js "<SI>") SI (0x1d :: b3))
    with (0x1d :: replace_all (js "<SI>") SI b3).
  reflexivity.
Qed.

(** ** Response encoder: the encoding *)

(** A code unit that is no surrogate is converted on its own. *)
Lemma to_scalars_sep (c : Z) (a b : js_string) :
  Utf16.is_high c = false -> Utf16.is_low c = false ->
  Utf16.to_scalars (a ++ c :: b)
  = Utf16.to_scalars a ++ c :: Utf16.to_scalars b.
Proof.
  intros Hh Hl.
  assert (Hc : Utf16.to_scalars (c :: b) = c :: Utf16.to_scalars b).
  { cbn [Utf16.to_scalars]. rewrite Hh, Hl. reflexivity. }
  remember (length a) as n eqn:Hn. revert a Hn.
  induction n as [n IH] using lt_wf_ind. intros a ->.
  destruct a as [|x a]; [exact Hc|].
  cbn [app Utf16.to_scalars]. destruct (Utf16.is_high x).
  - destruct a as [|d a]; cbn [app].
    + rewrite Hl, Hc. reflexivity.
    + destruct (Utf16.is_low d).
      * rewrite (IH (length a)) by (simpl; lia || reflexivity). reflexivity.
      * change (d :: a ++ c :: b) with ((d :: a) ++ c :: b).
        rewrite (IH (length (d :: a))) by (simpl; lia || reflexivity).
        reflexivity.
  - destruct (Utf16.is_low x);
      rewrite (IH (length a)) by (simpl; lia || reflexivity); reflexivity.
Qed.

Lemma TextEncoder_encode_controls (a b : js_string) :
  TextEncoder_encode (a ++ [0x1c; 0x1d] ++ b)
  = TextEncoder_encode a ++ [0x1c; 0x1d] ++ TextEncoder_encode b.
Proof.
  unfold TextEncoder_encode, Utf8.encode.
  change (a ++ [0x1c; 0x1d] ++ b) with (a ++ 0x1c :: ([] ++ 0x1d :: b)).
  rewrite !to_scalars_sep by reflexivity.
  rewrite flat_map_app. reflexivity.
Qed.

(** The encoder is the encoding of the four replacements, in their order,
    and a "<FS>" followed at once by "<GS>" gives 1C 1D between the
    encodings of what is before and after. *)
Lemma replaceSeperatorAndToUint8Array_tokens (input pre post : js_string) :
  replaceSeperatorAndToUint8Array (js_text input)
  = Normal (TextEncoder_encode
              (replace_all (js "<SI>") [0x0f]
                 (replace_all (js "<GS>") [0x1d]
                    (replace_all (js "<SO>") [0x0e]
                       (replace_all (js "<FS>") [0x1c] input)))))
  /\ replaceSeperatorAndToUint8Array (js_text (pre ++ js "<FS><GS>" ++ post))
     = Normal (TextEncoder_encode (substitute_tokens pre)
               ++ [0x1c; 0x1d]
               ++ TextEncoder_encode (substitute_tokens post)).
Proof.
  split; [reflexivity|].
  cbn [replaceSeperatorAndToUint8Array].
  rewrite substitute_tokens_FS_GS, TextEncoder_encode_controls. reflexivity.
Qed.

(** ** Bit operations as arithmetic *)

Lemma shiftr_div (x k : Z) : 0 <= k -> Z.shiftr x k = x / 2 ^ k.
Proof. intros. apply Z.shiftr_div_pow2. assumption. Qed.

Lemma shiftl_mul (x k : Z) : 0 <= k -> Z.shiftl x k = x * 2 ^ k.
Proof. intros. apply Z.shiftl_mul_pow2. assumption. Qed.

Lemma land_mask (x k : Z) : 0 <= k -> Z.land x (2 ^ k - 1) = x mod 2 ^ k.
Proof.
  intros. rewrite <- Z.land_ones by assumption. f_equal.
  rewrite Z.ones_equiv. lia.
Qed.

(** Bits set below [2 ^ k] and a multiple of [2 ^ k] do not meet. *)
Lemma lor_add (a b k : Z) :
  0 <= k -> 0 <= b < 2 ^ k -> Z.lor (a * 2 ^ k) b = a * 2 ^ k + b.
Proof.
  intros Hk Hb. symmetry. apply Z.add_nocarry_lor.
  apply Z.bits_inj'. intros n Hn.
  rewrite Z.land_spec, Z.bits_0.
  destruct (Z.lt_ge_cases n k) as [Hlt|Hge].
  - rewrite Z.mul_pow2_bits_low by lia. reflexivity.
  - replace b with (b mod 2 ^ k) by (apply Z.mod_small; lia).
    rewrite Z.mod_pow2_bits_high by lia. apply andb_false_r.
Qed.

Lemma lor_0x80 (y : Z) : 0 <= y < 64 -> Z.lor 0x80 y = 128 + y.
Proof. intros. apply (lor_add 1 y 7); lia. Qed.

Lemma lor_shiftl_6 (a y : Z) :
  0 <= y < 64 -> Z.lor (Z.shiftl a 6) y = a * 64 + y.
Proof. intros. rewrite shiftl_mul by lia. apply (lor_add a y 6); lia. Qed.

Lemma land_0x3F (x : Z) : Z.land x 0x3F = x mod 64.
Proof. apply (land_mask x 6). lia. Qed.
Lemma land_0x1F (x : Z) : Z.land x 0x1F = x mod 32.
Proof. apply (land_mask x 5). lia. Qed.
Lemma land_0xF (x : Z) : Z.land x 0xF = x mod 16.
Proof. apply (land_mask x 4). lia. Qed.
Lemma land_0x7 (x : Z) : Z.land x 0x7 = x mod 8.
Proof. apply (land_mask x 3). lia. Qed.
Lemma land_0x3FF (x : Z) : Z.land x 0x3FF = x mod 1024.
Proof. apply (land_mask x 10). lia. Qed.

(** ** UTF-8: decoding an encoding *)

Lemma encode_scalar_arith (cp : Z) :
  Utf8.encode_scalar cp
  = if cp <=? 0x7F then [cp]
    else if cp <=? 0x7FF then [cp / 64 + 192; 128 + cp mod 64]
    else if cp <=? 0xFFFF then
      [cp / 4096 + 224; 128 + (cp / 64) mod 64; 128 + cp mod 64]
    else [cp / 262144 + 240; 128 + (cp / 4096) mod 64;
          128 + (cp / 64) mod 64; 128 + cp mod 64].
Proof.
  unfold Utf8.encode_scalar.
  rewrite !land_0x3F, !shiftr_div by lia.
  rewrite !lor_0x80 by (apply Z.mod_pos_bound; lia).
  reflexivity.
Qed.

Ltac arith := Z.div_mod_to_equations; lia.


Ltac decide_between :=
  repeat match goal with
  | |- context [Utf8.between ?lo ?b ?hi] =>
    first
      [ replace (Utf8.between lo b hi) with true
          by (symmetry; unfold Utf8.between; apply andb_true_intro;
              split; apply Z.leb_le; arith)
      | replace (Utf8.between lo b hi) with false
          by (symmetry; unfold Utf8.between; apply andb_false_iff;
              rewrite !Z.leb_gt; arith) ]
  end.

Lemma lead_1 (b : Z) : 0 <= b <= 0x7F -> Utf8.lead b = (Utf8.fresh, [b]).
Proof. intros H. unfold Utf8.lead. decide_between. reflexivity. Qed.

Lemma lead_2 (h : Z) :
  2 <= h < 32 ->
  Utf8.lead (h + 192)
  = ({| Utf8.code_point := h; Utf8.bytes_seen := 0; Utf8.bytes_needed := 1;
        Utf8.lower_boundary := 0x80; Utf8.upper_boundary := 0xBF |}, []).
Proof.
  intros H. unfold Utf8.lead. decide_between. rewrite land_0x1F.
  replace ((h + 192) mod 32) with h by arith. reflexivity.
Qed.

Lemma lead_3 (h : Z) :
  0 <= h < 16 ->
  Utf8.lead (h + 224)
  = ({| Utf8.code_point := h; Utf8.bytes_seen := 0; Utf8.bytes_needed := 2;
        Utf8.lower_boundary := if h =? 0 then 0xA0 else 0x80;
        Utf8.upper_boundary := if h =? 13 then 0x9F else 0xBF |}, []).
Proof.
  intros H. unfold Utf8.lead. decide_between. rewrite land_0xF.
  replace ((h + 224) mod 16) with h by arith.
  replace (h + 224 =? 224) with (h =? 0)
    by (destruct (Z.eqb_spec h 0), (Z.eqb_spec (h + 224) 224); lia || reflexivity).
  replace (h + 224 =? 237) with (h =? 13)
    by (destruct (Z.eqb_spec h 13), (Z.eqb_spec (h + 224) 237); lia || reflexivity).
  reflexivity.
Qed.

Lemma lead_4 (h : Z) :
  0 <= h <= 4 ->
  Utf8.lead (h + 240)
  = ({| Utf8.code_point := h; Utf8.bytes_seen := 0; Utf8.bytes_needed := 3;
        Utf8.lower_boundary := if h =? 0 then 0x90 else 0x80;
        Utf8.upper_boundary := if h =? 4 then 0x8F else 0xBF |}, []).
Proof.
  intros H. unfold Utf8.lead. decide_between. rewrite land_0x7.
  replace ((h + 240) mod 8) with h by arith.
  replace (h + 240 =? 240) with (h =? 0)
    by (destruct (Z.eqb_spec h 0), (Z.eqb_spec (h + 240) 240); lia || reflexivity).
  replace (h + 240 =? 244) with (h =? 4)
    by (destruct (Z.eqb_spec h 4), (Z.eqb_spec (h + 240) 244); lia || reflexivity).
  reflexivity.
Qed.

(** A continuation byte inside the boundaries of an open sequence. *)
Lemma step_continuation (d : Utf8.decoder) (y : Z) :
  Utf8.bytes_needed d <> 0 -> 0 <= y < 64 ->
  Utf8.lower_boundary d <= 128 + y <= Utf8.upper_boundary d ->
  Utf8.step d (128 + y)
  = if Utf8.bytes_seen d + 1 =? Utf8.bytes_needed d
    then (Utf8.fresh, [Utf8.code_point d * 64 + y])
    else ({| Utf8.code_point := Utf8.code_point d * 64 + y;
             Utf8.bytes_seen := Utf8.bytes_seen d + 1;
             Utf8.bytes_needed := Utf8.bytes_needed d;
             Utf8.lower_boundary := 0x80; Utf8.upper_boundary := 0xBF |}, []).
Proof.
  intros Hn Hy Hb. unfold Utf8.step.
  destruct (Z.eqb_spec (Utf8.bytes_needed d) 0) as [E|_]; [congruence|].
  decide_between. cbn [negb]. rewrite land_0x3F.
  replace ((128 + y) mod 64) with y by arith.
  rewrite lor_shiftl_6 by lia. reflexivity.
Qed.


Ltac decoder_fields :=
  cbn [Utf8.bytes_seen Utf8.bytes_needed Utf8.code_point
       Utf8.lower_boundary Utf8.upper_boundary].

Ltac side :=
  decoder_fields;
  repeat match goal with
  | |- context [?a =? ?b] => destruct (Z.eqb_spec a b)
  end; arith.

Ltac continuation :=
  rewrite step_continuation by side; decoder_fields;
  match goal with
  | |- context [?a =? ?b] =>
    let v := eval vm_compute in (a =? b) in
    change (a =? b) with v; cbv iota
  end.

Lemma run_encode_scalar (cp : Z) (rest : list Z) :
  is_scalar cp ->
  Utf8.run Utf8.fresh (Utf8.encode_scalar cp ++ rest)
  = cp :: Utf8.run Utf8.fresh rest.
Proof.
  intros [Hr Hs]. rewrite encode_scalar_arith.
  destruct (Z.leb_spec cp 0x7F) as [H1|H1];
    [|destruct (Z.leb_spec cp 0x7FF) as [H2|H2];
      [|destruct (Z.leb_spec cp 0xFFFF) as [H3|H3]]];
    cbn [app Utf8.run];
    change (Utf8.step Utf8.fresh ?b) with (Utf8.lead b).
  - rewrite lead_1 by lia. reflexivity.
  - rewrite lead_2 by arith. continuation.
    cbn [app]. f_equal. arith.
  - rewrite lead_3 by arith. do 2 continuation.
    cbn [app]. f_equal. arith.
  - rewrite lead_4 by arith. do 3 continuation.
    cbn [app]. f_equal. arith.
Qed.

Lemma decode_encode (cps : list Z) :
  Forall is_scalar cps -> Utf8.decode (Utf8.encode cps) = cps.
Proof.
  unfold Utf8.decode, Utf8.encode.
  induction 1 as [|cp cps Hcp _ IH]; [reflexivity|].
  cbn [flat_map]. rewrite run_encode_scalar by exact Hcp. rewrite IH. reflexivity.
Qed.

(** ** UTF-16: well-formed strings *)

Lemma well_formed_ind (P : js_string -> Prop) :
  P [] ->
  (forall c s, Utf16.is_high c = false -> Utf16.is_low c = false ->
     0 <= c <= 0xFFFF -> well_formed s = true -> P s -> P (c :: s)) ->
  (forall c d s, Utf16.is_high c = true -> Utf16.is_low d = true ->
     well_formed s = true -> P s -> P (c :: d :: s)) ->
  forall s, well_formed s = true -> P s.
Proof.
  intros Hnil Hone Hpair s.
  remember (length s) as n eqn:Hn. revert s Hn.
  induction n as [n IH] using lt_wf_ind. intros s -> Hwf.
  destruct s as [|c s]; [exact Hnil|].
  cbn [well_formed] in Hwf. destruct (Utf16.is_high c) eqn:Hh.
  - destruct s as [|d s]; [discriminate|].
    apply andb_true_iff in Hwf as [Hl Hwf].
    apply Hpair; auto. apply (IH (length s)); simpl; auto; lia.
  - rewrite !andb_true_iff, negb_true_iff, !Z.leb_le in Hwf.
    destruct Hwf as [[[Hl H0] H1] Hwf].
    apply Hone; auto. apply (IH (length s)); simpl; auto; lia.
Qed.

Lemma surrogates (c : Z) :
  (Utf16.is_high c = true <-> 0xD800 <= c <= 0xDBFF)
  /\ (Utf16.is_low c = true <-> 0xDC00 <= c <= 0xDFFF).
Proof.
  unfold Utf16.is_high, Utf16.is_low.
  rewrite !andb_true_iff, !Z.leb_le. tauto.
Qed.

Lemma not_surrogate (c : Z) :
  Utf16.is_high c = false -> Utf16.is_low c = false ->
  ~ (0xD800 <= c <= 0xDFFF).
Proof.
  intros Hh Hl H. destruct (surrogates c) as [A B].
  destruct (Z.le_gt_cases c 0xDBFF).
  - rewrite (proj2 A) in Hh by lia. discriminate.
  - rewrite (proj2 B) in Hl by lia. discriminate.
Qed.

Lemma units_pair (c d : Z) :
  Utf16.is_high c = true -> Utf16.is_low d = true ->
  let cp := 0x10000 + Z.shiftl (c - 0xD800) 10 + (d - 0xDC00) in
  is_scalar cp /\ Utf16.units cp = [c; d].
Proof.
  intros Hc Hd. apply surrogates in Hc. apply surrogates in Hd.
  cbv zeta. rewrite shiftl_mul by lia. change (2 ^ 10) with 1024.
  split; [unfold is_scalar; lia|].
  unfold Utf16.units. destruct (Z.leb_spec (65536 + (c - 55296) * 1024 + (d - 56320)) 65535); [lia|].
  rewrite shiftr_div, land_0x3FF by lia. change (2 ^ 10) with 1024.
  f_equal; [|f_equal]; arith.
Qed.

Lemma to_scalars_well_formed (s : js_string) :
  well_formed s = true ->
  Forall is_scalar (Utf16.to_scalars s)
  /\ Utf16.of_scalars (Utf16.to_scalars s) = s.
Proof.
  revert s. apply well_formed_ind.
  - split; [constructor|reflexivity].
  - intros c s Hh Hl Hc _ [IH1 IH2]. cbn [Utf16.to_scalars]. rewrite Hh, Hl.
    split.
    + constructor; [|exact IH1]. split; [lia|]. apply not_surrogate; assumption.
    + unfold Utf16.of_scalars in *. cbn [flat_map]. rewrite IH2.
      unfold Utf16.units. destruct (Z.leb_spec c 65535); [reflexivity|lia].
  - intros c d s Hh Hl _ [IH1 IH2]. cbn [Utf16.to_scalars]. rewrite Hh, Hl.
    destruct (units_pair c d Hh Hl) as [Hs Hu]. cbv zeta in Hs, Hu. split.
    + constructor; assumption.
    + unfold Utf16.of_scalars in *. cbn [flat_map]. rewrite IH2, Hu. reflexivity.
Qed.

(** The first scalar value of a well-formed string is U+FEFF only if its
    first code unit is. *)
Lemma to_scalars_head (s : js_string) :
  well_formed s = true -> head s <> Some 0xFEFF ->
  head (Utf16.to_scalars s) <> Some 0xFEFF.
Proof.
  revert s.
  apply (well_formed_ind
           (fun s => head s <> Some 0xFEFF ->
                     head (Utf16.to_scalars s) <> Some 0xFEFF)).
  - intros _. discriminate.
  - intros c s Hh Hl _ _ _ Hhead. cbn [Utf16.to_scalars]. rewrite Hh, Hl.
    exact Hhead.
  - intros c d s Hh Hl _ _ _. cbn [Utf16.to_scalars]. rewrite Hh, Hl.
    destruct (units_pair c d Hh Hl) as [_ Hu]. cbv zeta in Hu.
    cbn [head]. intros [= E]. rewrite E in Hu. discriminate.
Qed.

Lemma TextDecoder_TextEncoder (ignoreBOM : bool) (s : js_string) :
  well_formed s = true ->
  ignoreBOM = true \/ head s <> Some 0xFEFF ->
  TextDecoder_decode ignoreBOM (TextEncoder_encode s) = s.
Proof.
  intros Hwf Hbom. destruct (to_scalars_well_formed s Hwf) as [Hs Hu].
  unfold TextDecoder_decode, TextEncoder_encode.
  rewrite decode_encode by exact Hs.
  destruct ignoreBOM; [exact Hu|].
  destruct Hbom as [|Hbom]; [discriminate|].
  apply (to_scalars_head s Hwf) in Hbom.
  destruct (Utf16.to_scalars s) as [|c cps]; [exact Hu|].
  destruct (Z.eqb_spec c 0xFEFF) as [->|_]; [|exact Hu].
  exfalso. apply Hbom. reflexivity.
Qed.

(** ** The round trip *)

Lemma substitute_tokens_token_free (s : js_string) :
  token_free s = true -> substitute_tokens s = s.
Proof.
  unfold token_free. rewrite negb_true_iff, !orb_false_iff.
  intros [[[H1 H2] H3] H4]. unfold substitute_tokens.
  rewrite (replace_all_absent _ _ s H1), (replace_all_absent _ _ s H2),
    (replace_all_absent _ _ s H3), (replace_all_absent _ _ s H4).
  reflexivity.
Qed.

Lemma token_of_control_free (s : js_string) :
  control_free s = true -> flat_map token_of s = s.
Proof.
  induction s as [|c s IH]; [reflexivity|]. cbn [control_free forallb].
  rewrite andb_true_iff, negb_true_iff. intros [Hc Hs].
  cbn [flat_map]. rewrite (IH Hs). unfold is_control in Hc.
  rewrite !orb_false_iff in Hc. destruct Hc as [[[H1 H2] H3] H4].
  unfold token_of. rewrite H1, H2, H3, H4. reflexivity.
Qed.

(** C7, as the code has it: for a well-formed text (every surrogate in a
    pair) free of the token spellings and of the four control characters,
    the response encoder followed by the token-reverse gives the text back,
    when the UTF-8 decoding keeps a leading U+FEFF or the text does not
    begin with one. *)
Theorem encode_token_reverse (ignoreBOM : bool) (text : js_string) :
  well_formed text = true ->
  token_free text = true ->
  control_free text = true ->
  ignoreBOM = true \/ head text <> Some 0xFEFF ->
  exists bytes,
    replaceSeperatorAndToUint8Array (js_text text) = Normal bytes
    /\ token_reverse ignoreBOM bytes = text.
Proof.
  intros Hwf Htok Hctl Hbom. eexists. split; [reflexivity|].
  unfold token_reverse.
  rewrite (substitute_tokens_token_free text Htok).
  rewrite (TextDecoder_TextEncoder ignoreBOM text Hwf Hbom).
  apply token_of_control_free. exact Hctl.
Qed.

Lemma encode_token_reverse_witness :
  exists bytes,
    replaceSeperatorAndToUint8Array (js_text (js "A" ++ [0x20AC; 0xD83D; 0xDE00]))
    = Normal bytes
    /\ token_reverse false bytes = js "A" ++ [0x20AC; 0xD83D; 0xDE00].
Proof.
  apply (encode_token_reverse false (js "A" ++ [0x20AC; 0xD83D; 0xDE00])).
  - vm_compute. reflexivity.
  - vm_compute. reflexivity.
  - vm_compute. reflexivity.
  - right. vm_compute. discriminate.
Defined.

(** C7 as stated fails: the text made of the one unpaired surrogate U+D800
    has no token spelling and no control character, and comes back as
    U+FFFD. No reverse can mend this: the encoder sends this text and the
    text U+FFFD to the same bytes. *)
Lemma encode_token_reverse_lone_surrogate :
  token_free [0xD800] = true
  /\ control_free [0xD800] = true
  /\ replaceSeperatorAndToUint8Array (js_text [0xD800]) = Normal [0xEF; 0xBF; 0xBD]
  /\ token_reverse true [0xEF; 0xBF; 0xBD] = [0xFFFD]
  /\ token_reverse false [0xEF; 0xBF; 0xBD] = [0xFFFD]
  /\ ~ (exists reverse : Uint8Array -> js_string,
         forall text bytes,
           token_free text = true -> control_free text = true ->
           replaceSeperatorAndToUint8Array (js_text text) = Normal bytes ->
           reverse bytes = text).
Proof.
  repeat (split; [vm_compute; reflexivity|]).
  intros [reverse H].
  assert (A : reverse [0xEF; 0xBF; 0xBD] = [0xD800])
    by (apply H; vm_compute; reflexivity).
  assert (B : reverse [0xEF; 0xBF; 0xBD] = [0xFFFD])
    by (apply H; vm_compute; reflexivity).
  rewrite A in B. discriminate.
Qed.


(** * Further properties of the code *)

(** ** The split *)

(** X1: joining the parts of the split with 0x1C gives the input back. *)
Theorem split_loop_join (input : Uint8Array) :
  join (split_loop input input 0 0 []) = input.
Proof. rewrite split_loop_segments. apply join_segments. Qed.

(** X2: no part of the split has a separator byte inside. *)
Theorem split_loop_no_separator (input : Uint8Array) :
  Forall (fun part => ~ In 0x1c part) (split_loop input input 0 0 []).
Proof. rewrite split_loop_segments. apply segments_no_separator. Qed.

(** X3: with [includeEmpty] the split returns one string per separator byte and
    one more; without it, it returns a part of them, none empty. *)
Theorem splitUint8ArrayBy0x1C_count (input : Uint8Array) :
  exists strings,
    splitUint8ArrayBy0x1C (js_bytes input) true = Normal strings
    /\ length strings = S (separators input)
    /\ splitUint8ArrayBy0x1C (js_bytes input) false
       = Normal (List.filter nonempty strings)
    /\ Forall (fun s => s <> []) (List.filter nonempty strings)
    /\ (length (List.filter nonempty strings) <= S (separators input))%nat.
Proof.
  eexists. split; [reflexivity|]. split; [|split; [reflexivity|split]].
  - rewrite length_map, split_loop_segments. apply length_segments.
  - apply List.Forall_forall. intros s Hs. apply List.filter_In in Hs as [_ Hs].
    destruct s; [discriminate|discriminate].
  - etransitivity; [apply List.filter_length_le|].
    rewrite length_map, split_loop_segments, length_segments. reflexivity.
Qed.

Lemma segments_app (a b : Uint8Array) :
  segments (a ++ 0x1c :: b) = segments a ++ segments b.
Proof.
  induction a as [|x a IH]; [reflexivity|]. cbn [app segments].
  destruct (x =? 0x1c); rewrite IH; [reflexivity|].
  destruct (segments_cons a) as (s & ss & ->). reflexivity.
Qed.

Lemma segments_whole (a : Uint8Array) :
  forallb (fun b => negb (b =? 0x1c)) a = true -> segments a = [a].
Proof.
  induction a as [|x a IH]; [reflexivity|]. cbn [forallb segments].
  rewrite andb_true_iff, negb_true_iff. intros [-> H]. rewrite (IH H). reflexivity.
Qed.

(** ** ASCII bytes decode to themselves *)

Lemma ascii_only_cons (c : Z) (s : list Z) :
  ascii_only (c :: s) = true <-> 0 <= c <= 0x7F /\ ascii_only s = true.
Proof.
  unfold ascii_only. cbn [forallb].
  rewrite !andb_true_iff, !Z.leb_le. tauto.
Qed.

Lemma decode_ascii (a : Uint8Array) :
  ascii_only a = true -> Utf8.decode a = a.
Proof.
  unfold Utf8.decode. induction a as [|b a IH]; [reflexivity|].
  intros H. apply ascii_only_cons in H as [Hb Ha].
  cbn [Utf8.run]. change (Utf8.step Utf8.fresh b) with (Utf8.lead b).
  rewrite lead_1 by lia. cbn [app]. rewrite (IH Ha). reflexivity.
Qed.

Lemma of_scalars_ascii (a : list Z) :
  ascii_only a = true -> Utf16.of_scalars a = a.
Proof.
  unfold Utf16.of_scalars. induction a as [|c a IH]; [reflexivity|].
  intros H. apply ascii_only_cons in H as [Hc Ha]. cbn [flat_map].
  rewrite (IH Ha). unfold Utf16.units.
  destruct (Z.leb_spec c 0xFFFF); [reflexivity|lia].
Qed.

Lemma TextDecoder_decode_ascii (ignoreBOM : bool) (a : Uint8Array) :
  ascii_only a = true -> TextDecoder_decode ignoreBOM a = a.
Proof.
  intros H. unfold TextDecoder_decode. rewrite (decode_ascii a H).
  destruct ignoreBOM; [apply of_scalars_ascii, H|].
  destruct a as [|c a]; [reflexivity|].
  pose proof (proj1 (ascii_only_cons c a) H) as [Hc _].
  destruct (Z.eqb_spec c 0xFEFF); [lia|]. apply of_scalars_ascii, H.
Qed.





(** ** Frame decoder *)

Lemma fields_of_cons (h0 h1 : Z) (body : Uint8Array) :
  fields_of (h0 :: h1 :: body)
  = List.filter nonempty (map (TextDecoder_decode false) (segments body)).
Proof. reflexivity. Qed.

(** X5: the first 2 bytes are not looked at: the result for a message is the
    result for its body under any header, the one of [appendLength] too. *)
Theorem extractOpcode_header (h0 h1 : Z) (body : Uint8Array) :
  extractOpcode (h0 :: h1 :: body) = extractOpcode (appendLength (U8 body)).
Proof. rewrite !extractOpcode_fields, appendLength_bytes. reflexivity. Qed.

(** X6: empty fields do not count: a separator at the start or at the end of
    the body, and a separator that follows another, change nothing. *)
Theorem extractOpcode_empty_fields (h0 h1 : Z) (a b : Uint8Array) :
  extractOpcode (h0 :: h1 :: 0x1c :: b) = extractOpcode (h0 :: h1 :: b)
  /\ extractOpcode (h0 :: h1 :: a ++ [0x1c]) = extractOpcode (h0 :: h1 :: a)
  /\ extractOpcode (h0 :: h1 :: a ++ 0x1c :: 0x1c :: b)
     = extractOpcode (h0 :: h1 :: a ++ 0x1c :: b).
Proof.
  rewrite !extractOpcode_fields, !fields_of_cons, !segments_app.
  cbn [segments]. change (0x1c =? 0x1c) with true. cbv iota.
  rewrite !map_app, !List.filter_app. cbn [map]. repeat split.
  rewrite app_nil_r. reflexivity.
Qed.

Lemma ascii_field_spec (f : Uint8Array) :
  ascii_field f = true ->
  segments f = [f] /\ TextDecoder_decode false f = f /\ nonempty f = true.
Proof.
  unfold ascii_field. rewrite !andb_true_iff. intros [[Ha Hn] Hs].
  auto using segments_whole, TextDecoder_decode_ascii.
Qed.

(** X7: the third field decides. After any 2 header bytes and two ASCII fields,
    a third ASCII field gives "GIS" if it is "B0000" and [null] otherwise,
    whether the message ends there or goes on after a separator. *)
Theorem extractOpcode_third_field (h0 h1 : Z) (f0 f1 f2 rest : Uint8Array) :
  ascii_field f0 = true -> ascii_field f1 = true -> ascii_field f2 = true ->
  let answer := if string_eqb f2 B0000 then Some GIS else None in
  extractOpcode (h0 :: h1 :: f0 ++ 0x1c :: f1 ++ 0x1c :: f2) = answer
  /\ extractOpcode (h0 :: h1 :: f0 ++ 0x1c :: f1 ++ 0x1c :: f2 ++ 0x1c :: rest)
     = answer.
Proof.
  intros H0 H1 H2.
  destruct (ascii_field_spec f0 H0) as (S0 & D0 & N0).
  destruct (ascii_field_spec f1 H1) as (S1 & D1 & N1).
  destruct (ascii_field_spec f2 H2) as (S2 & D2 & N2).
  cbv zeta. rewrite !extractOpcode_fields, !fields_of_cons, !segments_app.
  rewrite S0, S1, S2. cbn [app map List.filter].
  rewrite D0, D1, D2, N0, N1, N2. split; reflexivity.
Qed.

Lemma extractOpcode_third_field_witness :
  extractOpcode ([0x00; 0x0c] ++ js "11" ++ FS ++ js "000" ++ FS ++ js "B0000")
  = Some GIS
  /\ extractOpcode ([0x00; 0x10] ++ js "11" ++ FS ++ js "000" ++ FS ++ js "B0001"
                    ++ FS ++ js "x1")
     = None.
Proof.
  split.
  - apply (proj1 (extractOpcode_third_field 0x00 0x0c (js "11") (js "000")
                    (js "B0000") [] eq_refl eq_refl eq_refl)).
  - apply (proj2 (extractOpcode_third_field 0x00 0x10 (js "11") (js "000")
                    (js "B0001") (js "x1") eq_refl eq_refl eq_refl)).
Defined.

(** ** Response encoder: no token is left *)

Section ReplaceOne.

Variables (pattern : js_string) (c : Z).

(** What the result begins with, the input began with, as far as the
    replacement character is not part of it. *)
Lemma starts_with_replace_all (q s : js_string) :
  ~ In c q ->
  starts_with q (replace_all pattern [c] s) = true -> starts_with q s = true.
Proof.
  revert s. induction q as [|y q IH]; intros s Hc H; [reflexivity|].
  destruct s as [|x s]; [discriminate H|].
  unfold replace_all in *. cbn [replace_from] in H.
  destruct (starts_with pattern (x :: s)).
  - cbn [app starts_with] in H. apply andb_true_iff in H as [H _].
    apply Z.eqb_eq in H. subst. exfalso. apply Hc. left. reflexivity.
  - cbn [starts_with] in *. apply andb_true_iff in H as [-> H].
    apply IH; [|exact H]. intros Hin. apply Hc. right. exact Hin.
Qed.

Lemma starts_with_split (s : js_string) :
  starts_with pattern s = true -> s = pattern ++ drop (length pattern) s.
Proof.
  revert s. induction pattern as [|p pat IH]; intros s H; [reflexivity|].
  destruct s as [|x s]; [discriminate H|]. cbn [starts_with] in H.
  apply andb_true_iff in H as [Hp H]. apply Z.eqb_eq in Hp. subst.
  cbn [length drop app]. f_equal. apply IH. exact H.
Qed.

End ReplaceOne.

Lemma occurs_suffix (pattern l t : js_string) :
  occurs pattern (l ++ t) = false -> occurs pattern t = false.
Proof.
  induction l as [|x l IH]; [trivial|]. cbn [app occurs].
  intros H. apply orb_false_iff in H as [_ H]. apply IH. exact H.
Qed.

(** One step of the replacement on a match: the input is the pattern and a
    rest, and the result is the replacement and the result on the rest. *)
Lemma replace_all_match (p : Z) (rest replacement s : js_string) :
  starts_with (p :: rest) s = true ->
  exists t, s = (p :: rest) ++ t
    /\ replace_all (p :: rest) replacement s
       = replacement ++ replace_all (p :: rest) replacement t.
Proof.
  intros H. pose proof (starts_with_split _ _ H) as E.
  exists (drop (length (p :: rest)) s). split; [exact E|].
  rewrite E at 1. unfold replace_all. cbn [app replace_from].
  change (p :: rest ++ ?t) with ((p :: rest) ++ t).
  rewrite starts_with_self.
  replace (length (p :: rest) - 1)%nat with (length rest) by (simpl; lia).
  rewrite replace_from_skip. reflexivity.
Qed.

(** After the replacement the pattern occurs nowhere. *)
Lemma occurs_replace_all_same (p : Z) (rest : js_string) (c : Z) (s : js_string) :
  ~ In c (p :: rest) ->
  occurs (p :: rest) (replace_all (p :: rest) [c] s) = false.
Proof.
  intros Hc. remember (length s) as n eqn:Hn. revert s Hn.
  induction n as [n IH] using lt_wf_ind. intros s ->.
  destruct s as [|x s]; [reflexivity|].
  destruct (starts_with (p :: rest) (x :: s)) eqn:E.
  - destruct (replace_all_match p rest [c] _ E) as (t & Et & ->).
    cbn [app occurs]. rewrite (IH (length t)); trivial.
    + rewrite orb_false_r. cbn [starts_with].
      destruct (Z.eqb_spec p c) as [->|_]; [|reflexivity].
      exfalso. apply Hc. left. reflexivity.
    + rewrite Et. rewrite length_app. simpl. lia.
  - unfold replace_all in *. cbn [replace_from]. rewrite E.
    cbn [occurs]. rewrite (IH (length s)) by (simpl; lia || reflexivity).
    rewrite orb_false_r. cbn [starts_with].
    destruct (starts_with rest (replace_from (p :: rest) [c] 0 s)) eqn:F;
      [|apply andb_false_r].
    apply (starts_with_replace_all (p :: rest) c rest s) in F.
    + cbn [starts_with] in E. rewrite F, andb_true_r in E. rewrite E. reflexivity.
    + intros Hin. apply Hc. right. exact Hin.
Qed.

(** A pattern that does not occur is not brought in by the replacement of
    another one. *)
Lemma occurs_replace_all_other (pattern : js_string) (p : Z) (rest : js_string)
    (c : Z) (s : js_string) :
  ~ In c pattern -> pattern <> [] ->
  occurs pattern s = false ->
  occurs pattern (replace_all (p :: rest) [c] s) = false.
Proof.
  intros Hc Hne. remember (length s) as n eqn:Hn. revert s Hn.
  induction n as [n IH] using lt_wf_ind. intros s -> Hs.
  destruct s as [|x s]; [exact Hs|].
  assert (Hhead : forall l, starts_with pattern (c :: l) = false).
  { intros l. destruct pattern as [|y q]; [congruence|]. cbn [starts_with].
    destruct (Z.eqb_spec y c) as [->|_]; [|reflexivity].
    exfalso. apply Hc. left. reflexivity. }
  destruct (starts_with (p :: rest) (x :: s)) eqn:E.
  - destruct (replace_all_match p rest [c] _ E) as (t & Et & ->).
    cbn [app occurs]. rewrite Hhead. cbn [orb].
    apply (IH (length t)); trivial.
    + rewrite Et, length_app. simpl. lia.
    + rewrite Et in Hs. apply (occurs_suffix _ _ _ Hs).
  - unfold replace_all in *. cbn [replace_from]. rewrite E.
    cbn [occurs] in *. apply orb_false_iff in Hs as [Hs1 Hs2].
    rewrite (IH (length s)) by (simpl; lia || trivial).
    rewrite orb_false_r.
    destruct (starts_with pattern (x :: replace_from (p :: rest) [c] 0 s)) eqn:F;
      [|reflexivity].
    destruct pattern as [|y q]; [congruence|]. cbn [starts_with] in F, Hs1.
    apply andb_true_iff in F as [Fy F].
    apply (starts_with_replace_all (p :: rest) c q s) in F.
    + rewrite Fy, F in Hs1. discriminate.
    + intros Hin. apply Hc. right. exact Hin.
Qed.

(** X8: in the text the encoder encodes no token spelling is left, whatever the
    response text was: every occurrence was replaced, and no replacement
    made a new one. So substituting twice is substituting once. *)
Theorem substitute_tokens_leaves_no_token (input : js_string) :
  token_free (substitute_tokens input) = true
  /\ substitute_tokens (substitute_tokens input) = substitute_tokens input.
Proof.
  assert (T : token_free (substitute_tokens input) = true);
    [|split; [exact T|apply substitute_tokens_token_free, T]].
  unfold token_free, substitute_tokens. apply negb_true_iff.
  rewrite !orb_false_iff. repeat split.
  - do 3 (apply (occurs_replace_all_other (js "<FS>")); [not_in|discriminate|]).
    apply (occurs_replace_all_same 60 (js "FS>")). not_in.
  - do 2 (apply (occurs_replace_all_other (js "<SO>")); [not_in|discriminate|]).
    apply (occurs_replace_all_same 60 (js "SO>")). not_in.
  - do 1 (apply (occurs_replace_all_other (js "<GS>")); [not_in|discriminate|]).
    apply (occurs_replace_all_same 60 (js "GS>")). not_in.
  - apply (occurs_replace_all_same 60 (js "SI>")). not_in.
Qed.

(** ** Response encoder: what the payload is made of *)

Lemma replace_from_Forall (P : Z -> Prop) (pattern : js_string) (c : Z)
    (k : nat) (s : js_string) :
  P c -> Forall P s -> Forall P (replace_from pattern [c] k s).
Proof.
  intros Hc Hs. revert k. induction Hs as [|x s Hx Hs IH]; intros k; [constructor|].
  cbn [replace_from]. destruct k as [|k]; [|apply IH].
  destruct (starts_with pattern (x :: s)); cbn [app]; constructor; auto.
Qed.

Lemma length_replace_from (pattern : js_string) (c : Z) (k : nat) (s : js_string) :
  (length (replace_from pattern [c] k s) <= length s)%nat.
Proof.
  revert k. induction s as [|x s IH]; intros k; [reflexivity|].
  cbn [replace_from]. destruct k as [|k].
  - destruct (starts_with pattern (x :: s)); cbn [app length];
      apply le_n_S, IH.
  - cbn [length]. etransitivity; [apply IH|lia].
Qed.

Lemma replace_all_nonempty (pattern : js_string) (c : Z) (s : js_string) :
  s <> [] -> replace_all pattern [c] s <> [].
Proof.
  destruct s as [|x s]; [congruence|]. intros _. unfold replace_all.
  cbn [replace_from]. destruct (starts_with pattern (x :: s)); discriminate.
Qed.

Lemma substitute_tokens_Forall (P : Z -> Prop) (s : js_string) :
  P 0x1c -> P 0x0e -> P 0x1d -> P 0x0f ->
  Forall P s -> Forall P (substitute_tokens s).
Proof.
  intros. unfold substitute_tokens, replace_all, FS, SO, GS, SI.
  auto using replace_from_Forall.
Qed.

Lemma ascii_only_Forall (s : list Z) :
  ascii_only s = true <-> Forall (fun c => 0 <= c <= 0x7F) s.
Proof.
  induction s as [|c s IH]; [split; constructor|].
  rewrite ascii_only_cons, IH. split.
  - intros [? ?]. constructor; assumption.
  - intros H. inversion H; auto.
Qed.

Lemma TextEncoder_encode_ascii (s : js_string) :
  ascii_only s = true -> TextEncoder_encode s = s.
Proof.
  unfold TextEncoder_encode, Utf8.encode.
  induction s as [|c s IH]; [reflexivity|]. intros H.
  apply ascii_only_cons in H as [Hc Hs]. cbn [Utf16.to_scalars].
  replace (Utf16.is_high c) with false
    by (symmetry; unfold Utf16.is_high; apply andb_false_iff; rewrite !Z.leb_gt; lia).
  replace (Utf16.is_low c) with false
    by (symmetry; unfold Utf16.is_low; apply andb_false_iff; rewrite !Z.leb_gt; lia).
  cbn [flat_map]. rewrite (IH Hs). unfold Utf8.encode_scalar.
  destruct (Z.leb_spec c 0x7F); [reflexivity|lia].
Qed.

(** X9: an ASCII response text is sent one byte per character: the payload is
    the text after the substitution, itself ASCII; a text without tokens is
    sent as it is. *)
Theorem replaceSeperatorAndToUint8Array_ascii (text : js_string) :
  ascii_only text = true ->
  replaceSeperatorAndToUint8Array (js_text text) = Normal (substitute_tokens text)
  /\ ascii_only (substitute_tokens text) = true
  /\ (token_free text = true ->
      replaceSeperatorAndToUint8Array (js_text text) = Normal text).
Proof.
  intros H.
  assert (A : ascii_only (substitute_tokens text) = true).
  { apply ascii_only_Forall. apply substitute_tokens_Forall; try lia.
    apply ascii_only_Forall, H. }
  cbn [replaceSeperatorAndToUint8Array].
  rewrite (TextEncoder_encode_ascii _ A). split; [reflexivity|split; [exact A|]].
  intros T. rewrite (substitute_tokens_token_free text T). reflexivity.
Qed.

Lemma replaceSeperatorAndToUint8Array_ascii_witness :
  replaceSeperatorAndToUint8Array (js_text (js "40<FS>000<FS><SO>1"))
  = Normal (js "40" ++ FS ++ js "000" ++ FS ++ SO ++ js "1")
  /\ replaceSeperatorAndToUint8Array (js_text (js "Hello <F>")) = Normal (js "Hello <F>").
Proof.
  split.
  - apply (proj1 (replaceSeperatorAndToUint8Array_ascii
                    (js "40<FS>000<FS><SO>1") eq_refl)).
  - apply (proj2 (proj2 (replaceSeperatorAndToUint8Array_ascii
                           (js "Hello <F>") eq_refl))).
    vm_compute. reflexivity.
Defined.

(** The conversion to scalar values goes through a string by surrogate
    pairs and single code units. *)
Lemma to_scalars_cases (P : js_string -> list Z -> Prop) :
  P [] [] ->
  (forall c d s, Utf16.is_high c = true -> Utf16.is_low d = true ->
     P s (Utf16.to_scalars s) ->
     P (c :: d :: s)
       ((0x10000 + Z.shiftl (c - 0xD800) 10 + (d - 0xDC00)) :: Utf16.to_scalars s)) ->
  (forall c s,
     P s (Utf16.to_scalars s) ->
     P (c :: s)
       ((if Utf16.is_high c || Utf16.is_low c then 0xFFFD else c)
          :: Utf16.to_scalars s)) ->
  forall s, P s (Utf16.to_scalars s).
Proof.
  intros Hnil Hpair Hone s.
  remember (length s) as n eqn:Hn. revert s Hn.
  induction n as [n IH] using lt_wf_ind. intros s ->.
  destruct s as [|c s]; [exact Hnil|].
  cbn [Utf16.to_scalars]. destruct (Utf16.is_high c) eqn:Hh.
  - destruct s as [|d s].
    + specialize (Hone c [] Hnil). rewrite Hh in Hone. exact Hone.
    + destruct (Utf16.is_low d) eqn:Hl.
      * apply Hpair; auto. apply (IH (length s)); simpl; auto; lia.
      * specialize (Hone c (d :: s)). rewrite Hh in Hone. apply Hone.
        apply (IH (length (d :: s))); simpl; auto; lia.
  - specialize (Hone c s). rewrite Hh in Hone. cbn [orb] in Hone.
    destruct (Utf16.is_low c); apply Hone; apply (IH (length s)); simpl; auto; lia.
Qed.

Lemma encode_scalar_bytes (cp : Z) :
  0 <= cp <= 0x10FFFF ->
  Forall is_byte (Utf8.encode_scalar cp)
  /\ (1 <= length (Utf8.encode_scalar cp) <= 4)%nat
  /\ (cp <= 0xFFFF -> (length (Utf8.encode_scalar cp) <= 3)%nat).
Proof.
  intros H. rewrite encode_scalar_arith. unfold is_byte.
  destruct (Z.leb_spec cp 0x7F); [|destruct (Z.leb_spec cp 0x7FF);
    [|destruct (Z.leb_spec cp 0xFFFF)]];
    (split; [repeat constructor; arith|simpl; lia]).
Qed.

Lemma TextEncoder_encode_payload (s : js_string) :
  Forall is_code_unit s ->
  Forall is_byte (TextEncoder_encode s)
  /\ (length (TextEncoder_encode s) <= 3 * length s)%nat
  /\ (s <> [] -> TextEncoder_encode s <> []).
Proof.
  unfold TextEncoder_encode, Utf8.encode. revert s.
  apply (to_scalars_cases (fun s out =>
    Forall is_code_unit s ->
    Forall is_byte (flat_map Utf8.encode_scalar out)
    /\ (length (flat_map Utf8.encode_scalar out) <= 3 * length s)%nat
    /\ (s <> [] -> flat_map Utf8.encode_scalar out <> []))).
  - intros _. repeat split; [constructor|reflexivity|congruence].
  - intros c d s Hh Hl IH Hs. inversion Hs as [|? ? _ Hs']; subst.
    inversion Hs' as [|? ? _ Hs'']; subst.
    destruct (IH Hs'') as (B & L & _).
    apply surrogates in Hh. apply surrogates in Hl.
    rewrite shiftl_mul by lia. change (2 ^ 10) with 1024.
    destruct (encode_scalar_bytes (65536 + (c - 55296) * 1024 + (d - 56320)))
      as (Bc & Lc & _); [lia|].
    cbn [flat_map length]. rewrite length_app. repeat split.
    + apply Forall_app. split; assumption.
    + lia.
    + intros _ E. apply app_eq_nil in E as [E _]. rewrite E in Lc. simpl in Lc. lia.
  - intros c s IH Hs. inversion Hs as [|? ? Hc Hs']; subst.
    destruct (IH Hs') as (B & L & _). unfold is_code_unit in Hc.
    set (v := if Utf16.is_high c || Utf16.is_low c then 0xFFFD else c).
    assert (Hv : 0 <= v <= 0xFFFF) by (subst v; destruct (_ || _); lia).
    destruct (encode_scalar_bytes v) as (Bc & Lc & L3); [lia|].
    specialize (L3 (proj2 Hv)).
    cbn [flat_map length]. rewrite length_app. repeat split.
    + apply Forall_app. split; assumption.
    + lia.
    + intros _ E. apply app_eq_nil in E as [E _]. rewrite E in Lc. simpl in Lc. lia.
Qed.

(** X10: for a response text (code units in range) the encoder returns bytes,
    at most 3 for each code unit of the text, and at least one unless the
    text is empty. *)
Theorem replaceSeperatorAndToUint8Array_payload (text : js_string) :
  Forall is_code_unit text ->
  exists payload,
    replaceSeperatorAndToUint8Array (js_text text) = Normal payload
    /\ Forall is_byte payload
    /\ (length payload <= 3 * length text)%nat
    /\ (text <> [] -> payload <> []).
Proof.
  intros H. eexists. split; [reflexivity|].
  assert (Hs : Forall is_code_unit (substitute_tokens text))
    by (apply substitute_tokens_Forall; unfold is_code_unit; trivial; lia).
  assert (Hl : (length (substitute_tokens text) <= length text)%nat).
  { unfold substitute_tokens, replace_all, FS, SO, GS, SI.
    repeat (etransitivity; [apply length_replace_from|]). reflexivity. }
  destruct (TextEncoder_encode_payload _ Hs) as (B & L & N).
  repeat split; [exact B|lia|].
  intros Hne. apply N. unfold substitute_tokens, FS, SO, GS, SI.
  auto using replace_all_nonempty.
Qed.

Lemma replaceSeperatorAndToUint8Array_payload_witness :
  exists payload,
    replaceSeperatorAndToUint8Array (js_text (js "<GS>" ++ [0x20AC; 0xD83D; 0xDE00]))
    = Normal payload
    /\ Forall is_byte payload
    /\ (length payload <= 3 * 7)%nat
    /\ (js "<GS>" ++ [0x20AC; 0xD83D; 0xDE00] <> [] -> payload <> []).
Proof.
  apply (replaceSeperatorAndToUint8Array_payload (js "<GS>" ++ [0x20AC; 0xD83D; 0xDE00])).
  apply List.Forall_forall. intros x Hx. vm_compute in Hx.
  unfold is_code_unit. intuition lia.
Defined.

(** ** Frame encoder *)

(** X11: for every payload the frame is the payload after 2 bytes, and these 2
    bytes are the big-endian encoding of the length modulo 65536. *)
Theorem appendLength_modulo (data : Uint8Array) :
  exists hi lo,
    appendLength (U8 data) = hi :: lo :: data
    /\ is_byte hi /\ is_byte lo
    /\ 256 * hi + lo = Z.of_nat (length data) mod 65536.
Proof.
  rewrite appendLength_bytes. eexists _, _. split; [reflexivity|].
  unfold is_byte. change (2 ^ 32) with (65536 * 65536).
  Z.div_mod_to_equations. lia.
Qed.

(** X12: the frame of a byte sequence is a byte sequence, and the frame of an
    [Int8Array] is one whatever its elements are. *)
Theorem appendLength_is_bytes (data : Uint8Array) (signed : list Z) :
  (Forall is_byte data -> Forall is_byte (appendLength (U8 data)))
  /\ Forall is_byte (appendLength (I8 signed))
  /\ length (appendLength (I8 signed)) = (2 + length signed)%nat.
Proof.
  assert (M : forall n, is_byte (n mod 256))
    by (intros n; unfold is_byte; Z.div_mod_to_equations; lia).
  split; [|split].
  - intros H. rewrite appendLength_bytes.
    apply Forall_cons; split; [apply M|]. apply Forall_cons; split; [apply M|exact H].
  - unfold appendLength. rewrite !land_0xff.
    apply Forall_cons; split; [apply M|]. apply Forall_cons; split; [apply M|].
    apply List.Forall_forall. intros x Hx. apply List.in_map_iff in Hx as (y & <- & _).
    apply M.
  - unfold appendLength. cbn [length]. rewrite length_map. reflexivity.
Qed.

Lemma appendLength_is_bytes_witness :
  Forall is_byte (appendLength (U8 [0x41; 0x1c; 0xff]))
  /\ appendLength (I8 [-1; 65; -128]) = [0; 3; 255; 65; 128].
Proof.
  split.
  - apply (proj1 (appendLength_is_bytes [0x41; 0x1c; 0xff] [])).
    apply List.Forall_forall. intros x Hx. vm_compute in Hx.
    unfold is_byte. intuition lia.
  - reflexivity.
Defined.

(** X13: a response text of at most 21845 code units always fits: the 2 bytes
    in front of its payload are the length of the payload, unwrapped. *)
Theorem appendLength_of_text (text : js_string) :
  Forall is_code_unit text -> Z.of_nat (length text) <= 21845 ->
  exists hi lo payload,
    replaceSeperatorAndToUint8Array (js_text text) = Normal payload
    /\ appendLength (U8 payload) = hi :: lo :: payload
    /\ is_byte hi /\ is_byte lo
    /\ 256 * hi + lo = Z.of_nat (length payload).
Proof.
  intros H Hlen. cbn [replaceSeperatorAndToUint8Array].
  assert (Hs : Forall is_code_unit (substitute_tokens text))
    by (apply substitute_tokens_Forall; unfold is_code_unit; trivial; lia).
  assert (Hl : (length (substitute_tokens text) <= length text)%nat).
  { unfold substitute_tokens, replace_all, FS, SO, GS, SI.
    repeat (etransitivity; [apply length_replace_from|]). reflexivity. }
  destruct (TextEncoder_encode_payload _ Hs) as (_ & L & _).
  set (payload := TextEncoder_encode (substitute_tokens text)) in *.
  eexists _, _, payload.
  split; [reflexivity|split; [apply appendLength_bytes|]].
  unfold is_byte. change (2 ^ 32) with (65536 * 65536).
  Z.div_mod_to_equations. lia.
Qed.

Lemma appendLength_of_text_witness :
  exists hi lo payload,
    replaceSeperatorAndToUint8Array (js_text (js "<FS>" ++ [0x20AC])) = Normal payload
    /\ appendLength (U8 payload) = hi :: lo :: payload
    /\ is_byte hi /\ is_byte lo
    /\ 256 * hi + lo = Z.of_nat (length payload).
Proof.
  apply (appendLength_of_text (js "<FS>" ++ [0x20AC])).
  - apply List.Forall_forall. intros x Hx. vm_compute in Hx.
    unfold is_code_unit. intuition lia.
  - vm_compute. discriminate.
Defined.

(** ** The data handlers *)

Lemma extractOpcode_GIS (data : Uint8Array) (opcode : js_string) :
  extractOpcode data = Some opcode -> opcode = GIS.
Proof.
  rewrite extractOpcode_fields. destruct (fields_of data !! 2%nat) as [f|]; [|discriminate].
  destruct (string_eqb f B0000); [|discriminate]. intros [= <-]. reflexivity.
Qed.

Lemma extractOpcode_B0000 (data : Uint8Array) :
  fields_of data !! 2%nat = Some B0000 -> extractOpcode data = Some GIS.
Proof. intros H. rewrite extractOpcode_fields, H. reflexivity. Qed.

Lemma TextEncoder_encode_nonempty (s : js_string) :
  s <> [] -> TextEncoder_encode s <> [].
Proof.
  assert (E : forall cp rest, Utf8.encode_scalar cp ++ rest <> []).
  { intros cp rest. unfold Utf8.encode_scalar.
    destruct (cp <=? 0x7F); [discriminate|].
    destruct (cp <=? 0x7FF); [discriminate|].
    destruct (cp <=? 0xFFFF); discriminate. }
  destruct s as [|c s]; [congruence|]. intros _.
  unfold TextEncoder_encode, Utf8.encode. cbn [Utf16.to_scalars].
  destruct (Utf16.is_high c).
  - destruct s as [|d s]; [apply E|]. destruct (Utf16.is_low d); apply E.
  - destruct (Utf16.is_low c); apply E.
Qed.

(** X14: the TCP handler reads the mapping at "GIS" only: two mappings that
    agree there are answered alike, whatever was received. *)
Theorem on_data_reads_GIS (m1 m2 : gmap (list Z) js_value) (data : Uint8Array) :
  m1 !! GIS = m2 !! GIS -> on_data m1 data = on_data m2 data.
Proof.
  intros H. unfold on_data. destruct (extractOpcode data) as [op|] eqn:E; [|reflexivity].
  apply extractOpcode_GIS in E. subst op.
  unfold getResponseMessage, Get. rewrite H. reflexivity.
Qed.

Lemma on_data_reads_GIS_witness :
  on_data hello_mapping ([0; 0] ++ scenario_payload)
  = on_data (<[js "OP001" := js_text (js "other")]> hello_mapping)
      ([0; 0] ++ scenario_payload).
Proof.
  apply (on_data_reads_GIS hello_mapping
           (<[js "OP001" := js_text (js "other")]> hello_mapping)).
  vm_compute. reflexivity.
Defined.

(** X15: a message with "B0000" as its third field and a mapping with a
    non-empty text at "GIS": after 2000 ms the handler writes the encoded
    text behind 2 bytes, its length modulo 65536 in big-endian. *)
Theorem on_data_mapped (m : gmap (list Z) js_value) (data : Uint8Array)
    (text : js_string) :
  fields_of data !! 2%nat = Some B0000 ->
  m !! GIS = Some (js_text text) -> text <> [] ->
  exists hi lo payload,
    replaceSeperatorAndToUint8Array (js_text text) = Normal payload
    /\ on_data m data = write_after 2000 (hi :: lo :: payload)
    /\ is_byte hi /\ is_byte lo
    /\ 256 * hi + lo = Z.of_nat (length payload) mod 65536.
Proof.
  intros Hf Hm Hne. unfold on_data.
  rewrite (extractOpcode_B0000 data Hf), (getResponseMessage_own m GIS _ Hm).
  destruct text as [|c text]; [congruence|].
  cbn [ToBoolean length Nat.eqb negb replaceSeperatorAndToUint8Array].
  rewrite appendLength_bytes. eexists _, _, _.
  split; [reflexivity|split; [reflexivity|]].
  unfold is_byte. change (2 ^ 32) with (65536 * 65536).
  Z.div_mod_to_equations. lia.
Qed.

Lemma on_data_mapped_witness :
  exists hi lo payload,
    replaceSeperatorAndToUint8Array (js_text (js "Hello")) = Normal payload
    /\ on_data hello_mapping ([0; 0] ++ scenario_payload)
       = write_after 2000 (hi :: lo :: payload)
    /\ is_byte hi /\ is_byte lo
    /\ 256 * hi + lo = Z.of_nat (length payload) mod 65536.
Proof.
  apply (on_data_mapped hello_mapping ([0; 0] ++ scenario_payload) (js "Hello")).
  - vm_compute. reflexivity.
  - vm_compute. reflexivity.
  - discriminate.
Defined.

(** X16: for a message with "B0000" as its third field and a mapping
    without "GIS", or with a falsy value there, the TCP handler writes the
    frame of "Unknown opcode: GIS". *)
Theorem on_data_unknown (m : gmap (list Z) js_value) (data : Uint8Array) :
  fields_of data !! 2%nat = Some B0000 ->
  m !! GIS = None \/ (exists v, m !! GIS = Some v /\ ToBoolean v = false) ->
  on_data m data
  = write_after 2000 ([0x00; 0x13] ++ js "Unknown opcode: GIS").
Proof.
  intros Hf Hm. unfold on_data. rewrite (extractOpcode_B0000 data Hf).
  assert (E : getResponseMessage m GIS = js_text (js "Unknown opcode: GIS")).
  { destruct Hm as [Hm|(v & Hm & Hv)].
    - unfold getResponseMessage, Get. rewrite Hm. reflexivity.
    - rewrite (getResponseMessage_own m GIS v Hm), Hv. reflexivity. }
  rewrite E. reflexivity.
Qed.

Lemma on_data_unknown_witness :
  on_data ∅ ([0; 0] ++ scenario_payload)
  = write_after 2000 ([0x00; 0x13] ++ js "Unknown opcode: GIS")
  /\ on_data empty_text_mapping ([0; 0] ++ scenario_payload)
     = write_after 2000 ([0x00; 0x13] ++ js "Unknown opcode: GIS").
Proof.
  split.
  - apply (on_data_unknown ∅ ([0; 0] ++ scenario_payload)).
    + vm_compute. reflexivity.
    + left. vm_compute. reflexivity.
  - apply (on_data_unknown empty_text_mapping ([0; 0] ++ scenario_payload)).
    + vm_compute. reflexivity.
    + right. exists (js_text []). split; vm_compute; reflexivity.
Defined.

(** X17: for a message with "B0000" as its third field and a mapping with
    a truthy value at "GIS" that is no text (a number, [true], an object),
    a TypeError leaves the TCP handler: it writes nothing. *)
Theorem on_data_not_text (m : gmap (list Z) js_value) (data : Uint8Array)
    (v : js_value) :
  fields_of data !! 2%nat = Some B0000 ->
  m !! GIS = Some v -> ToBoolean v = true -> (forall text, v <> js_text text) ->
  on_data m data = uncaught.
Proof.
  intros Hf Hm Hv Hn. unfold on_data.
  rewrite (extractOpcode_B0000 data Hf), (getResponseMessage_own m GIS v Hm), Hv.
  cbv iota. rewrite Hv. cbn [negb].
  destruct v as [| | | |text| |]; try reflexivity.
  exfalso. apply (Hn text). reflexivity.
Qed.

Lemma on_data_not_text_witness :
  on_data number_mapping ([0; 0] ++ scenario_payload) = uncaught.
Proof.
  apply (on_data_not_text number_mapping ([0; 0] ++ scenario_payload) (js_number 42)).
  - vm_compute. reflexivity.
  - vm_compute. reflexivity.
  - reflexivity.
  - discriminate.
Defined.

(** X18: whatever the TCP handler writes, it writes after 2000 ms, in
    answer to a message with "B0000" as its third field, and with at least
    one byte of payload behind the 2 length bytes. *)
Theorem on_data_writes (m : gmap (list Z) js_value) (data : Uint8Array)
    (delay : Z) (frame : Uint8Array) :
  on_data m data = write_after delay frame ->
  delay = 2000
  /\ fields_of data !! 2%nat = Some B0000
  /\ (3 <= length frame)%nat.
Proof.
  unfold on_data. rewrite extractOpcode_fields.
  destruct (fields_of data !! 2%nat) as [field|]; [|discriminate].
  destruct (string_eqb field B0000) eqn:Hf; [|discriminate].
  apply string_eqb_eq in Hf. subst field.
  pose proof (getResponseMessage_truthy m GIS) as T. rewrite T. cbn [negb].
  destruct (getResponseMessage m GIS) as [| | | |text| |]; try discriminate.
  cbn [replaceSeperatorAndToUint8Array]. intros [= <- <-].
  repeat split.
  assert (N : TextEncoder_encode (substitute_tokens text) <> []).
  { apply TextEncoder_encode_nonempty. unfold substitute_tokens, FS, SO, GS, SI.
    repeat apply replace_all_nonempty. destruct text; [discriminate T|discriminate]. }
  unfold appendLength. cbn [length].
  destruct (TextEncoder_encode (substitute_tokens text)); [congruence|simpl; lia].
Qed.

Lemma on_data_writes_witness :
  2000 = 2000
  /\ fields_of ([0; 0] ++ scenario_payload) !! 2%nat = Some B0000
  /\ (3 <= length [0x00; 0x05; 0x48; 0x65; 0x6c; 0x6c; 0x6f])%nat.
Proof.
  apply (on_data_writes hello_mapping ([0; 0] ++ scenario_payload) 2000
           [0x00; 0x05; 0x48; 0x65; 0x6c; 0x6c; 0x6f]).
  vm_compute. reflexivity.
Defined.

(** X19: the TLS handler answers a message with "B0000" as its third field as
    the TCP handler does: the same frame, or the same error. *)
Theorem on_data_tls_decoded (m : gmap (list Z) js_value) (data : Uint8Array) :
  fields_of data !! 2%nat = Some B0000 -> on_data_tls m data = on_data m data.
Proof.
  intros Hf. unfold on_data_tls, on_data.
  rewrite (extractOpcode_B0000 data Hf). cbn [opcode_text].
  rewrite getResponseMessage_truthy. reflexivity.
Qed.

Lemma on_data_tls_decoded_witness :
  on_data_tls hello_mapping ([0; 0] ++ scenario_payload)
  = on_data hello_mapping ([0; 0] ++ scenario_payload).
Proof.
  apply (on_data_tls_decoded hello_mapping ([0; 0] ++ scenario_payload)).
  vm_compute. reflexivity.
Defined.

(** X20: where the TCP handler stays silent the TLS handler does not: for a
    message without "B0000" as its third field it looks up the key "null",
    and with no such key it writes the frame of "Unknown opcode: null". *)
Theorem on_data_tls_null (m : gmap (list Z) js_value) (data : Uint8Array) :
  fields_of data !! 2%nat <> Some B0000 ->
  m !! js "null" = None ->
  on_data m data = failed_to_extract_opcode
  /\ on_data_tls m data
     = write_after 2000 ([0x00; 0x14] ++ js "Unknown opcode: null").
Proof.
  intros Hf Hm. unfold on_data_tls, on_data.
  assert (E : extractOpcode data = None).
  { rewrite extractOpcode_fields.
    destruct (fields_of data !! 2%nat) as [f|]; [|reflexivity].
    destruct (string_eqb f B0000) eqn:Ef; [|reflexivity].
    apply string_eqb_eq in Ef. subst. congruence. }
  rewrite E. split; [reflexivity|]. cbn [opcode_text].
  unfold getResponseMessage, Get. rewrite Hm. reflexivity.
Qed.

Lemma on_data_tls_null_witness :
  let data := [0; 0] ++ js "xx" ++ FS ++ js "yy" ++ FS ++ js "B0001" in
  on_data hello_mapping data = failed_to_extract_opcode
  /\ on_data_tls hello_mapping data
     = write_after 2000 ([0x00; 0x14] ++ js "Unknown opcode: null").
Proof.
  apply (on_data_tls_null hello_mapping
           ([0; 0] ++ js "xx" ++ FS ++ js "yy" ++ FS ++ js "B0001")).
  - vm_compute. discriminate.
  - vm_compute. reflexivity.
Defined.

(** X21: with texts only in the mapping the TLS handler answers everything it
    receives: it never throws. *)
Theorem on_data_tls_answers (m : gmap (list Z) js_value) (data : Uint8Array) :
  (forall k v, m !! k = Some v -> exists text, v = js_text text) ->
  exists frame, on_data_tls m data = write_after 2000 frame.
Proof.
  intros Htext. unfold on_data_tls.
  assert (Hi : inherited (opcode_text (extractOpcode data)) = false).
  { destruct (extractOpcode data) as [op|] eqn:E; [|reflexivity].
    apply extractOpcode_GIS in E. subst. reflexivity. }
  set (key := opcode_text (extractOpcode data)) in *.
  assert (E : exists text, getResponseMessage m key = js_text text).
  { unfold getResponseMessage, Get. rewrite Hi.
    destruct (m !! key) as [v|] eqn:Hm.
    - destruct (Htext key v Hm) as [text ->].
      destruct (ToBoolean (js_text text)); eauto.
    - cbn [ToBoolean]. eauto. }
  destruct E as [text ->]. cbn [replaceSeperatorAndToUint8Array]. eauto.
Qed.

Lemma on_data_tls_answers_witness :
  exists frame, on_data_tls hello_mapping [0x1c; 0x1c; 0x1c] = write_after 2000 frame.
Proof.
  apply (on_data_tls_answers hello_mapping [0x1c; 0x1c; 0x1c]).
  intros k v H. unfold hello_mapping in H.
  apply lookup_singleton_Some in H as [_ <-]. eauto.
Defined.

(** * The decoder rule in bytes *)

(** ** Decoding without errors is the inverse of encoding *)

Lemma lead_error (b : Z) :
  ~ (0 <= b <= 0x7F) -> ~ (0xC2 <= b <= 0xDF) -> ~ (0xE0 <= b <= 0xEF) ->
  ~ (0xF0 <= b <= 0xF4) ->
  Utf8.lead b = (Utf8.fresh, [0xFFFD]).
Proof. intros. unfold Utf8.lead. decide_between. reflexivity. Qed.

(** A byte outside the boundaries of an open sequence gives U+FFFD. *)
Lemma step_error (d : Utf8.decoder) (b : Z) :
  Utf8.bytes_needed d <> 0 ->
  Utf8.between (Utf8.lower_boundary d) b (Utf8.upper_boundary d) = false ->
  exists d' out, Utf8.step d b = (d', 0xFFFD :: out).
Proof.
  intros Hn Hb. unfold Utf8.step.
  destruct (Z.eqb_spec (Utf8.bytes_needed d) 0); [congruence|].
  rewrite Hb. cbn [negb]. destruct (Utf8.lead b) as [d' out]. eauto.
Qed.

Lemma between_spec (lo b hi : Z) :
  Utf8.between lo b hi = true <-> lo <= b <= hi.
Proof. unfold Utf8.between. rewrite andb_true_iff, !Z.leb_le. tauto. Qed.

(** The next byte of an open sequence, when no U+FFFD comes out. *)
Lemma run_open (d : Utf8.decoder) (bs : list Z) :
  Utf8.bytes_needed d <> 0 ->
  0x80 <= Utf8.lower_boundary d -> Utf8.upper_boundary d <= 0xBF ->
  ~ In 0xFFFD (Utf8.run d bs) ->
  exists y rest,
    bs = (128 + y) :: rest /\ 0 <= y < 64
    /\ Utf8.lower_boundary d <= 128 + y <= Utf8.upper_boundary d
    /\ Utf8.run d bs
       = let (d', out) := Utf8.step d (128 + y) in out ++ Utf8.run d' rest.
Proof.
  intros Hn Hlo Hhi H. destruct bs as [|b rest].
  - exfalso. apply H. cbn [Utf8.run].
    destruct (Z.eqb_spec (Utf8.bytes_needed d) 0); [congruence|]. left. reflexivity.
  - destruct (Utf8.between (Utf8.lower_boundary d) b (Utf8.upper_boundary d)) eqn:Hb.
    + apply between_spec in Hb. exists (b - 128), rest.
      replace (128 + (b - 128)) with b by lia. repeat split; try lia.
    + exfalso. apply H. cbn [Utf8.run].
      destruct (step_error d b Hn Hb) as (d' & out & ->). left. reflexivity.
Qed.

Lemma run_continue (d : Utf8.decoder) (bs : list Z) :
  Utf8.bytes_needed d <> 0 ->
  0x80 <= Utf8.lower_boundary d -> Utf8.upper_boundary d <= 0xBF ->
  ~ In 0xFFFD (Utf8.run d bs) ->
  exists y rest,
    bs = (128 + y) :: rest /\ 0 <= y < 64
    /\ Utf8.lower_boundary d <= 128 + y <= Utf8.upper_boundary d
    /\ Utf8.run d bs
       = if Utf8.bytes_seen d + 1 =? Utf8.bytes_needed d
         then (Utf8.code_point d * 64 + y) :: Utf8.run Utf8.fresh rest
         else Utf8.run {| Utf8.code_point := Utf8.code_point d * 64 + y;
                          Utf8.bytes_seen := Utf8.bytes_seen d + 1;
                          Utf8.bytes_needed := Utf8.bytes_needed d;
                          Utf8.lower_boundary := 0x80;
                          Utf8.upper_boundary := 0xBF |} rest.
Proof.
  intros Hn Hlo Hhi H.
  destruct (run_open d bs Hn Hlo Hhi H) as (y & rest & -> & Hy & Hb & E).
  exists y, rest. repeat split; try lia.
  rewrite E, step_continuation by (assumption || lia).
  destruct (_ =? _); reflexivity.
Qed.

Lemma encode_scalar_1 (b : Z) : 0 <= b <= 0x7F -> Utf8.encode_scalar b = [b].
Proof.
  intros H. unfold Utf8.encode_scalar. destruct (Z.leb_spec b 0x7F); [reflexivity|lia].
Qed.

Lemma encode_scalar_2 (h y : Z) :
  2 <= h < 32 -> 0 <= y < 64 ->
  Utf8.encode_scalar (h * 64 + y) = [h + 192; 128 + y].
Proof.
  intros Hh Hy. rewrite encode_scalar_arith.
  destruct (Z.leb_spec (h * 64 + y) 0x7F); [lia|].
  destruct (Z.leb_spec (h * 64 + y) 0x7FF); [|lia].
  f_equal; [|f_equal]; arith.
Qed.

Lemma encode_scalar_3 (h y z : Z) :
  0 <= h < 16 -> 0 <= y < 64 -> 0 <= z < 64 -> (h = 0 -> 32 <= y) ->
  Utf8.encode_scalar ((h * 64 + y) * 64 + z) = [h + 224; 128 + y; 128 + z].
Proof.
  intros Hh Hy Hz H0. rewrite encode_scalar_arith.
  destruct (Z.leb_spec ((h * 64 + y) * 64 + z) 0x7F); [lia|].
  destruct (Z.leb_spec ((h * 64 + y) * 64 + z) 0x7FF); [lia|].
  destruct (Z.leb_spec ((h * 64 + y) * 64 + z) 0xFFFF); [|lia].
  f_equal; [|f_equal; [|f_equal]]; arith.
Qed.

Lemma encode_scalar_4 (h x y z : Z) :
  0 <= h <= 4 -> 0 <= x < 64 -> 0 <= y < 64 -> 0 <= z < 64 -> (h = 0 -> 16 <= x) ->
  Utf8.encode_scalar (((h * 64 + x) * 64 + y) * 64 + z)
  = [h + 240; 128 + x; 128 + y; 128 + z].
Proof.
  intros Hh Hx Hy Hz H0. rewrite encode_scalar_arith.
  destruct (Z.leb_spec (((h * 64 + x) * 64 + y) * 64 + z) 0x7F); [lia|].
  destruct (Z.leb_spec (((h * 64 + x) * 64 + y) * 64 + z) 0x7FF); [lia|].
  destruct (Z.leb_spec (((h * 64 + x) * 64 + y) * 64 + z) 0xFFFF); [lia|].
  f_equal; [|f_equal; [|f_equal; [|f_equal]]]; arith.
Qed.

Lemma lead_2_byte (b : Z) :
  0xC2 <= b <= 0xDF ->
  Utf8.lead b
  = ({| Utf8.code_point := b - 192; Utf8.bytes_seen := 0; Utf8.bytes_needed := 1;
        Utf8.lower_boundary := 0x80; Utf8.upper_boundary := 0xBF |}, []).
Proof.
  intros H. pose proof (lead_2 (b - 192)) as E.
  replace (b - 192 + 192) with b in E by lia. apply E. lia.
Qed.

Lemma lead_3_byte (b : Z) :
  0xE0 <= b <= 0xEF ->
  Utf8.lead b
  = ({| Utf8.code_point := b - 224; Utf8.bytes_seen := 0; Utf8.bytes_needed := 2;
        Utf8.lower_boundary := if b - 224 =? 0 then 0xA0 else 0x80;
        Utf8.upper_boundary := if b - 224 =? 13 then 0x9F else 0xBF |}, []).
Proof.
  intros H. pose proof (lead_3 (b - 224)) as E.
  replace (b - 224 + 224) with b in E by lia. apply E. lia.
Qed.

Lemma lead_4_byte (b : Z) :
  0xF0 <= b <= 0xF4 ->
  Utf8.lead b
  = ({| Utf8.code_point := b - 240; Utf8.bytes_seen := 0; Utf8.bytes_needed := 3;
        Utf8.lower_boundary := if b - 240 =? 0 then 0x90 else 0x80;
        Utf8.upper_boundary := if b - 240 =? 4 then 0x8F else 0xBF |}, []).
Proof.
  intros H. pose proof (lead_4 (b - 240)) as E.
  replace (b - 240 + 240) with b in E by lia. apply E. lia.
Qed.

Ltac open_sequence H y rest Hy Hb :=
  apply run_continue in H as (y & rest & -> & Hy & Hb & H);
  [ cbn [Utf8.bytes_seen Utf8.bytes_needed Utf8.code_point
         Utf8.lower_boundary Utf8.upper_boundary] in Hb, H
  | decoder_fields; lia
  | decoder_fields; repeat (destruct (_ =? _)); lia
  | decoder_fields; repeat (destruct (_ =? _)); lia ].

(** Without U+FFFD in the output, the input begins with the encoding of the
    first scalar value that comes out. *)
Lemma run_fresh_cons (b : Z) (bs : list Z) :
  ~ In 0xFFFD (Utf8.run Utf8.fresh (b :: bs)) ->
  exists cp rest,
    b :: bs = Utf8.encode_scalar cp ++ rest
    /\ Utf8.run Utf8.fresh (b :: bs) = cp :: Utf8.run Utf8.fresh rest
    /\ (length rest < length (b :: bs))%nat.
Proof.
  cbn [Utf8.run]. change (Utf8.step Utf8.fresh b) with (Utf8.lead b).
  assert (C : 0 <= b <= 0x7F \/ 0xC2 <= b <= 0xDF \/ 0xE0 <= b <= 0xEF
              \/ 0xF0 <= b <= 0xF4
              \/ (~ 0 <= b <= 0x7F /\ ~ 0xC2 <= b <= 0xDF /\ ~ 0xE0 <= b <= 0xEF
                  /\ ~ 0xF0 <= b <= 0xF4)) by lia.
  destruct C as [C|[C|[C|[C|(C1 & C2 & C3 & C4)]]]].
  - rewrite lead_1 by exact C. cbn [app]. intros _. exists b, bs.
    rewrite encode_scalar_1 by exact C. repeat split. simpl. lia.
  - rewrite lead_2_byte by exact C. cbn [app]. intros H.
    pose proof H as H'. open_sequence H' y rest Hy Hb.
    change (0 + 1 =? 1) with true in H'. cbv iota in H'.
    exists ((b - 192) * 64 + y), rest.
    rewrite encode_scalar_2 by lia. replace (b - 192 + 192) with b by lia.
    repeat split; [exact H'|simpl; lia].
  - rewrite lead_3_byte by exact C. cbn [app]. intros H.
    pose proof H as H1. open_sequence H1 y rest Hy Hb.
    change (0 + 1 =? 2) with false in H1. cbv iota in H1.
    rewrite H1 in H |- *. pose proof H as H2. open_sequence H2 z rest' Hz Hb'.
    change (0 + 1 + 1 =? 2) with true in H2. cbv iota in H2.
    exists (((b - 224) * 64 + y) * 64 + z), rest'.
    rewrite encode_scalar_3
      by (try lia; intros E; rewrite E in Hb; cbn in Hb; lia).
    replace (b - 224 + 224) with b by lia.
    repeat split; [exact H2|simpl; lia].
  - rewrite lead_4_byte by exact C. cbn [app]. intros H.
    pose proof H as H1. open_sequence H1 x rest Hx Hb.
    change (0 + 1 =? 3) with false in H1. cbv iota in H1.
    rewrite H1 in H |- *. pose proof H as H2. open_sequence H2 y rest' Hy Hb'.
    change (0 + 1 + 1 =? 3) with false in H2. cbv iota in H2.
    rewrite H2 in H |- *. pose proof H as H3. open_sequence H3 z rest'' Hz Hb''.
    change (0 + 1 + 1 + 1 =? 3) with true in H3. cbv iota in H3.
    exists ((((b - 240) * 64 + x) * 64 + y) * 64 + z), rest''.
    rewrite encode_scalar_4
      by (try lia; intros E; rewrite E in Hb; cbn in Hb; lia).
    replace (b - 240 + 240) with b by lia.
    repeat split; [exact H3|simpl; lia].
  - rewrite lead_error by assumption. cbn [app]. intros H. exfalso. apply H.
    left. reflexivity.
Qed.

(** An input that decodes without U+FFFD is the encoding of what it
    decodes to. *)
Lemma encode_decode (bs : list Z) :
  ~ In 0xFFFD (Utf8.decode bs) -> Utf8.encode (Utf8.decode bs) = bs.
Proof.
  unfold Utf8.decode, Utf8.encode.
  remember (length bs) as n eqn:Hn. revert bs Hn.
  induction n as [n IH] using lt_wf_ind. intros bs -> H.
  destruct bs as [|b bs]; [reflexivity|].
  destruct (run_fresh_cons b bs H) as (cp & rest & E & R & L).
  rewrite R in H |- *. cbn [flat_map].
  rewrite (IH (length rest) L rest eq_refl), E; [reflexivity|].
  intros Hin. apply H. right. exact Hin.
Qed.

(** Code units below the surrogates are scalar values as they are. *)
Lemma of_scalars_low (cps : list Z) (s : js_string) :
  Forall (fun c => c < 0xD800) s -> Utf16.of_scalars cps = s -> cps = s.
Proof.
  unfold Utf16.of_scalars. intros Hs. revert cps.
  induction Hs as [|c s Hc Hs IH]; intros cps E.
  - destruct cps as [|cp cps]; [reflexivity|]. cbn [flat_map] in E.
    unfold Utf16.units in E. destruct (cp <=? 0xFFFF); discriminate.
  - destruct cps as [|cp cps]; [discriminate|]. cbn [flat_map] in E.
    unfold Utf16.units in E. destruct (Z.leb_spec cp 0xFFFF).
    + injection E as -> E. rewrite (IH cps E). reflexivity.
    + injection E as E _. exfalso. rewrite shiftr_div in E by lia.
      assert (0 <= (cp - 65536) / 2 ^ 10) by (apply Z.div_pos; lia). lia.
Qed.

(** The bytes that decode to a given text without surrogates: its UTF-8
    encoding, or that behind a byte order mark. *)
Lemma TextDecoder_decode_low (bytes : Uint8Array) (s : js_string) :
  Forall (fun c => c < 0xD800) s ->
  TextDecoder_decode false bytes = s ->
  bytes = Utf8.encode s \/ bytes = Utf8.encode (0xFEFF :: s).
Proof.
  intros Hs E. unfold TextDecoder_decode in E.
  assert (Hnot : ~ In 0xFFFD s).
  { intros Hin. rewrite List.Forall_forall in Hs. apply Hs in Hin. lia. }
  destruct (Utf8.decode bytes) as [|c cps] eqn:D.
  - apply of_scalars_low in E; [|exact Hs]. subst s. left.
    rewrite <- (encode_decode bytes); rewrite D; [reflexivity|intros []].
  - destruct (Z.eqb_spec c 0xFEFF) as [->|Hc].
    + apply of_scalars_low in E; [|exact Hs]. subst s. right.
      rewrite <- (encode_decode bytes); rewrite D; [reflexivity|].
      intros [F|F]; [discriminate|auto].
    + apply of_scalars_low in E; [|exact Hs]. subst s. left.
      rewrite <- (encode_decode bytes); rewrite D; [reflexivity|exact Hnot].
Qed.

(** The segments that decode to the empty text are the empty one and the
    byte order mark. *)
Lemma TextDecoder_decode_empty (segment : Uint8Array) :
  nonempty (TextDecoder_decode false segment) = kept segment.
Proof.
  unfold kept. destruct (string_eqb segment [] || string_eqb segment byte_order_mark) eqn:K.
  - apply orb_true_iff in K as [K|K]; apply string_eqb_eq in K; subst; reflexivity.
  - destruct (TextDecoder_decode false segment) as [|c s] eqn:E; [|reflexivity].
    exfalso. apply TextDecoder_decode_low in E; [|constructor].
    apply orb_false_iff in K as [K1 K2].
    destruct E as [->| ->]; [rewrite string_eqb_refl in K1|rewrite string_eqb_refl in K2];
      discriminate.
Qed.

(** The segments that decode to "B0000". *)
Lemma TextDecoder_decode_B0000 (segment : Uint8Array) :
  string_eqb (TextDecoder_decode false segment) B0000 = spells_B0000 segment.
Proof.
  unfold spells_B0000.
  destruct (string_eqb segment (js "B0000")
            || string_eqb segment (byte_order_mark ++ js "B0000")) eqn:K.
  - apply orb_true_iff in K as [K|K]; apply string_eqb_eq in K; subst; reflexivity.
  - destruct (string_eqb (TextDecoder_decode false segment) B0000) eqn:E; [|reflexivity].
    exfalso. apply string_eqb_eq in E.
    apply TextDecoder_decode_low in E.
    + apply orb_false_iff in K as [K1 K2].
      destruct E as [->| ->]; [rewrite string_eqb_refl in K1|rewrite string_eqb_refl in K2];
        discriminate.
    + apply List.Forall_forall. intros x Hx. vm_compute in Hx. intuition lia.
Qed.

Lemma filter_map_decode (parts : list Uint8Array) :
  List.filter nonempty (map (TextDecoder_decode false) parts)
  = map (TextDecoder_decode false) (List.filter kept parts).
Proof.
  induction parts as [|p parts IH]; [reflexivity|]. cbn [map List.filter].
  rewrite TextDecoder_decode_empty, IH. destruct (kept p); reflexivity.
Qed.

(** C1, as the code has it: for every inbound buffer, [extractOpcode]
    returns "GIS" exactly when the field at index 2 is the text "B0000",
    and [null] otherwise, where the fields are the decoded texts of the
    0x1C-segments of the buffer without its first 2 bytes, the empty texts
    discarded. In bytes: the segments that are empty or only a byte order
    mark are discarded, and the segment at index 2 of the others has to be
    the bytes of "B0000", with or without a byte order mark in front. No
    other opcode is produced. *)
Theorem extractOpcode_segments (message : Uint8Array) :
  extractOpcode message
  = (if decide (fields_of message !! 2%nat = Some B0000) then Some GIS else None)
  /\ extractOpcode message
     = match List.filter kept (segments (drop 2 message)) !! 2%nat with
       | Some segment => if spells_B0000 segment then Some GIS else None
       | None => None
       end.
Proof.
  split; [apply extractOpcode_rule|].
  rewrite extractOpcode_fields. unfold fields_of.
  rewrite filter_map_decode, list_lookup_fmap.
  destruct (List.filter kept (segments (drop 2 message)) !! 2%nat) as [segment|];
    [|reflexivity].
  cbn [fmap option_fmap option_map]. rewrite TextDecoder_decode_B0000. reflexivity.
Qed.

(** C1 as stated fails: in this buffer the split of the bytes after the
    header has the non-empty segments "xx", EF BB BF and "B0000", so that
    the segment at index 2 is the text "B0000", and the result is [null]:
    the byte order mark decodes to the empty text and is discarded. *)
Lemma extractOpcode_mark_segment :
  let message :=
    [0x00; 0x09] ++ js "xx" ++ [0x1c; 0xEF; 0xBB; 0xBF; 0x1c] ++ js "B0000" in
  let body := drop 2 message in
  List.filter nonempty (split_loop body body 0 0 [])
  = [js "xx"; [0xEF; 0xBB; 0xBF]; js "B0000"]
  /\ List.filter nonempty (split_loop body body 0 0 []) !! 2%nat = Some (js "B0000")
  /\ TextDecoder_decode false (js "B0000") = js "B0000"
  /\ extractOpcode message = None
  /\ extractOpcode message <> Some (js "GIS").
Proof. vm_compute. repeat split; discriminate. Qed.

(** * The encoder: every token, and UTF-8 *)

(** Where the first code unit of the pattern stands, a match begins or
    none goes across: the replacement can be done on both sides apart. *)
Lemma replace_from_cut (p : Z) (rest replacement a b : js_string) (k : nat) :
  ~ In p rest -> (k <= length a)%nat ->
  replace_from (p :: rest) replacement k (a ++ p :: b)
  = replace_from (p :: rest) replacement k a
    ++ replace_from (p :: rest) replacement 0 (p :: b).
Proof.
  intros Hp. revert k. induction a as [|x a IH]; intros k Hk.
  - simpl in Hk. replace k with O by lia. reflexivity.
  - change ((x :: a) ++ p :: b) with (x :: (a ++ p :: b)).
    destruct k as [|k]; cbn [replace_from].
    + assert (E : starts_with (p :: rest) (x :: a ++ p :: b)
                  = starts_with (p :: rest) (x :: a)).
      { cbn [starts_with]. f_equal. apply starts_with_app_sep. exact Hp. }
      rewrite E. destruct (starts_with (p :: rest) (x :: a)) eqn:E'.
      * apply starts_with_length in E'. cbn [length] in *.
        rewrite IH by lia. rewrite app_assoc. reflexivity.
      * rewrite IH by lia. reflexivity.
    + apply IH. simpl in Hk. lia.
Qed.

Lemma replace_all_cut (p : Z) (rest replacement a b : js_string) :
  ~ In p rest ->
  replace_all (p :: rest) replacement (a ++ p :: b)
  = replace_all (p :: rest) replacement a
    ++ replace_all (p :: rest) replacement (p :: b).
Proof. intros. apply replace_from_cut; auto. simpl. lia. Qed.

Ltac cut_at_token :=
  match goal with
  | |- context [replace_all (js ?t) ?r (?a ++ 60 :: ?b)] =>
    change (replace_all (js t) r (a ++ 60 :: b))
      with (replace_all (60 :: tl (js t)) r (a ++ 60 :: b));
    rewrite (replace_all_cut 60 (tl (js t)) r a b) by not_in;
    change (60 :: tl (js t)) with (js t)
  end.

Ltac cut_at_control c :=
  match goal with
  | |- context [replace_all ?t ?r (?a ++ c :: ?b)] =>
    rewrite (replace_all_sep t r c a b) by (not_in || discriminate)
  end.

Lemma substitute_tokens_FS (before after : js_string) :
  substitute_tokens (before ++ js "<FS>" ++ after)
  = substitute_tokens before ++ 0x1c :: substitute_tokens after.
Proof.
  unfold substitute_tokens; cbv zeta.
  change (js "<FS>" ++ after) with (60 :: (js "FS>" ++ after)).
  change (before ++ 60 :: js "FS>" ++ after)
    with (before ++ (60 :: js "FS>") ++ after).
  change (js "<FS>") with (60 :: js "FS>") at 1 2.
  rewrite replace_all_token by not_in.
  change (FS ++ ?x) with (0x1c :: x).
  do 3 cut_at_control 0x1c. reflexivity.
Qed.

Lemma substitute_tokens_SO (before after : js_string) :
  substitute_tokens (before ++ js "<SO>" ++ after)
  = substitute_tokens before ++ 0x0e :: substitute_tokens after.
Proof.
  unfold substitute_tokens; cbv zeta.
  change (js "<SO>" ++ after) with (60 :: (js "SO>" ++ after)).
  cut_at_token.
  change (replace_all (js "<FS>") FS (60 :: js "SO>" ++ after))
    with (js "<SO>" ++ replace_all (js "<FS>") FS after).
  set (a := replace_all (js "<FS>") FS before).
  set (b := replace_all (js "<FS>") FS after).
  change (js "<SO>") with (60 :: js "SO>").
  rewrite replace_all_token by not_in.
  change (SO ++ ?x) with (0x0e :: x).
  do 2 cut_at_control 0x0e. reflexivity.
Qed.

Lemma substitute_tokens_GS (before after : js_string) :
  substitute_tokens (before ++ js "<GS>" ++ after)
  = substitute_tokens before ++ 0x1d :: substitute_tokens after.
Proof.
  unfold substitute_tokens; cbv zeta.
  change (js "<GS>" ++ after) with (60 :: (js "GS>" ++ after)).
  cut_at_token.
  change (replace_all (js "<FS>") FS (60 :: js "GS>" ++ after))
    with (60 :: (js "GS>" ++ replace_all (js "<FS>") FS after)).
  set (a := replace_all (js "<FS>") FS before).
  set (b := replace_all (js "<FS>") FS after).
  cut_at_token.
  change (replace_all (js "<SO>") SO (60 :: js "GS>" ++ b))
    with (js "<GS>" ++ replace_all (js "<SO>") SO b).
  set (a' := replace_all (js "<SO>") SO a).
  set (b' := replace_all (js "<SO>") SO b).
  change (js "<GS>") with (60 :: js "GS>").
  rewrite replace_all_token by not_in.
  change (GS ++ ?x) with (0x1d :: x).
  cut_at_control 0x1d. reflexivity.
Qed.

Lemma substitute_tokens_SI (before after : js_string) :
  substitute_tokens (before ++ js "<SI>" ++ after)
  = substitute_tokens before ++ 0x0f :: substitute_tokens after.
Proof.
  unfold substitute_tokens; cbv zeta.
  change (js "<SI>" ++ after) with (60 :: (js "SI>" ++ after)).
  cut_at_token.
  change (replace_all (js "<FS>") FS (60 :: js "SI>" ++ after))
    with (60 :: (js "SI>" ++ replace_all (js "<FS>") FS after)).
  set (a := replace_all (js "<FS>") FS before).
  set (b := replace_all (js "<FS>") FS after).
  cut_at_token.
  change (replace_all (js "<SO>") SO (60 :: js "SI>" ++ b))
    with (60 :: (js "SI>" ++ replace_all (js "<SO>") SO b)).
  set (a' := replace_all (js "<SO>") SO a).
  set (b' := replace_all (js "<SO>") SO b).
  cut_at_token.
  change (replace_all (js "<GS>") GS (60 :: js "SI>" ++ b'))
    with (js "<SI>" ++ replace_all (js "<GS>") GS b').
  set (a'' := replace_all (js "<GS>") GS a').
  set (b'' := replace_all (js "<GS>") GS b').
  change (js "<SI>") with (60 :: js "SI>").
  rewrite replace_all_token by not_in. reflexivity.
Qed.

(** Each of the four tokens, wherever it stands, becomes its control
    character, and the text before it and the text after it are
    substituted as if they stood alone. *)
Lemma substitute_tokens_token (token : js_string) (control : Z)
    (before after : js_string) :
  In (token, control) token_table ->
  substitute_tokens (before ++ token ++ after)
  = substitute_tokens before ++ control :: substitute_tokens after.
Proof.
  intros H. unfold token_table in H. cbn [In] in H.
  destruct H as [H|[H|[H|[H|[]]]]]; injection H as <- <-.
  - exact (substitute_tokens_FS before after).
  - exact (substitute_tokens_SO before after).
  - exact (substitute_tokens_GS before after).
  - exact (substitute_tokens_SI before after).
Qed.

Lemma to_scalars_scalar (s : js_string) :
  Forall is_code_unit s -> Forall is_scalar (Utf16.to_scalars s).
Proof.
  revert s.
  apply (to_scalars_cases (fun s out => Forall is_code_unit s -> Forall is_scalar out)).
  - constructor.
  - intros c d s Hh Hl IH Hs. inversion Hs as [|? ? _ Hs']; subst.
    inversion Hs' as [|? ? _ Hs'']; subst.
    destruct (units_pair c d Hh Hl) as [Hcp _]. cbv zeta in Hcp.
    constructor; auto.
  - intros c s IH Hs. inversion Hs as [|? ? Hc Hs']; subst.
    constructor; [|auto]. unfold is_code_unit in Hc.
    destruct (Utf16.is_high c) eqn:Hh; [unfold is_scalar; cbn [orb]; lia|].
    destruct (Utf16.is_low c) eqn:Hl; [unfold is_scalar; cbn [orb]; lia|].
    cbn [orb]. split; [lia|]. apply not_surrogate; assumption.
Qed.

(** The payload of a text decodes, without an error, to the scalar values
    of the substituted text. *)
Lemma decode_TextEncoder_encode (s : js_string) :
  Forall is_code_unit s ->
  Utf8.decode (TextEncoder_encode s) = Utf16.to_scalars s.
Proof. intros H. apply decode_encode, to_scalars_scalar, H. Qed.

(** C5: the response encoder substitutes, in this order and each over the
    result of the step before, "<FS>" by 0x1C, "<SO>" by 0x0E, "<GS>" by
    0x1D and "<SI>" by 0x0F, and encodes the result as UTF-8. The
    substitution is literal and global: each of the four tokens, wherever
    it stands, becomes its control character, with the text before and
    after it substituted on their own, and a text without a token spelling
    is left as it is (so "<fs>" is no token). The encoding is UTF-8: the
    payload is made of bytes and decodes to the scalar values of the
    substituted text. A "<FS>" followed at once by "<GS>" gives the
    adjacent bytes 1C 1D between the payloads of what is before and
    after. *)
Theorem replaceSeperatorAndToUint8Array_substitution
    (text before after : js_string) :
  replaceSeperatorAndToUint8Array (js_text text)
  = Normal (TextEncoder_encode
              (replace_all (js "<SI>") [0x0f]
                 (replace_all (js "<GS>") [0x1d]
                    (replace_all (js "<SO>") [0x0e]
                       (replace_all (js "<FS>") [0x1c] text)))))
  /\ (forall token control, In (token, control) token_table ->
      substitute_tokens (before ++ token ++ after)
      = substitute_tokens before ++ control :: substitute_tokens after)
  /\ (token_free text = true -> substitute_tokens text = text)
  /\ (Forall is_code_unit text ->
      exists payload,
        replaceSeperatorAndToUint8Array (js_text text) = Normal payload
        /\ Forall is_byte payload
        /\ Utf8.decode payload = Utf16.to_scalars (substitute_tokens text))
  /\ (exists payload_before payload_after,
        replaceSeperatorAndToUint8Array (js_text before) = Normal payload_before
        /\ replaceSeperatorAndToUint8Array (js_text after) = Normal payload_after
        /\ replaceSeperatorAndToUint8Array (js_text (before ++ js "<FS><GS>" ++ after))
           = Normal (payload_before ++ [0x1c; 0x1d] ++ payload_after))
  /\ replaceSeperatorAndToUint8Array
       (js_text (js "<fs><SO>" ++ [0x20AC] ++ js "<SI><FS"))
     = Normal (js "<fs>" ++ [0x0e; 0xE2; 0x82; 0xAC; 0x0f] ++ js "<FS").
Proof.
  split; [reflexivity|].
  split; [intros token control H; apply substitute_tokens_token, H|].
  split; [apply substitute_tokens_token_free|].
  split; [|split; [|vm_compute; reflexivity]].
  - intros H. eexists. split; [reflexivity|].
    assert (Hs : Forall is_code_unit (substitute_tokens text))
      by (apply substitute_tokens_Forall; unfold is_code_unit; trivial; lia).
    split; [apply TextEncoder_encode_payload, Hs|].
    apply decode_TextEncoder_encode, Hs.
  - eexists _, _. split; [reflexivity|split; [reflexivity|]].
    apply (replaceSeperatorAndToUint8Array_tokens text before after).
Qed.

Lemma replaceSeperatorAndToUint8Array_substitution_witness :
  substitute_tokens (js "a<FS>" ++ js "<SI>" ++ js "<b")
  = substitute_tokens (js "a<FS>") ++ 0x0f :: substitute_tokens (js "<b")
  /\ substitute_tokens (js "<fs><Fs>< FS>") = js "<fs><Fs>< FS>"
  /\ exists payload,
       replaceSeperatorAndToUint8Array (js_text (js "<SO>" ++ [0x20AC; 0xD800]))
       = Normal payload
       /\ Forall is_byte payload
       /\ Utf8.decode payload
          = Utf16.to_scalars (substitute_tokens (js "<SO>" ++ [0x20AC; 0xD800])).
Proof.
  split; [|split].
  - apply (proj1 (proj2 (replaceSeperatorAndToUint8Array_substitution
                           [] (js "a<FS>") (js "<b")))).
    vm_compute. auto.
  - apply (proj1 (proj2 (proj2 (replaceSeperatorAndToUint8Array_substitution
                                  (js "<fs><Fs>< FS>") [] [])))).
    vm_compute. reflexivity.
  - apply (proj1 (proj2 (proj2 (proj2
             (replaceSeperatorAndToUint8Array_substitution
                (js "<SO>" ++ [0x20AC; 0xD800]) [] []))))).
    apply List.Forall_forall. intros x Hx. vm_compute in Hx.
    unfold is_code_unit. intuition lia.
Defined.
